(** * carbon/writer.py: the cache-draining writer

    A shallow embedding of [lib/carbon/writer.py] (Python 2) and the
    properties of its drain loop.

    The writer thread is sequential code that talks to collaborators: the
    shared [MetricCache], the clock, the file system, the whisper storage
    engine, the logger, the instrumentation counters and the twisted
    reactor.  The embedding is a state-and-exception monad over a [World]
    that holds

    - the module's global variables ([lastCreateInterval], [createCount],
      [schemas]) and the names its global scope can resolve,
    - the state of the collaborators (cache, existing files, current time),
    - the answers the environment will give (clock advances, producer
      activity on the cache, outcomes of storage calls, [reactor.running]),
    - what the run has produced so far (log, counters, history of calls).

    Conventions.  Time is counted in clock ticks of one microsecond
    ([TICKS] per second), so the floats returned by [time.time()] are read
    as exact multiples of a microsecond; [int(t)] is truncation.  Time
    moves when the program reads the clock, when it sleeps, and up to the
    moment it calls [whisper.create] (whose time the history records):
    the duration of any other operation is charged to the next of
    these. *)

From stdpp Require Import gmap strings list sorting.
From Stdlib Require Import ZArith QArith Ascii.

Local Open Scope string_scope.
Local Open Scope list_scope.
Local Open Scope Z_scope.

(** ** Data *)

(** A data point is (timestamp, value); the writer never looks inside. *)
Definition datapoint : Type := Z * Q.

Definition TICKS : Z := 1000000.

(** A storage schema as the writer uses it: [schema.name],
    [schema.matches(metric)] and the tuples of [schema.archives]. *)
Record Schema := {
  schema_name : string;
  schema_matches : string -> bool;
  schema_archives : list (Z * Z)
}.

(** The options of [carbon.conf.settings] read by the writer, and
    [carbon.storage.getFilesystemPath], a pure function of the metric
    name.  Both are declared outside this module and are parameters. *)
Record Config := {
  MAX_CACHE_SIZE : Z;
  MAX_CREATES_PER_MINUTE : Z;
  MAX_UPDATES_PER_SECOND : Z;
  LOG_UPDATES : bool;
  getFilesystemPath : string -> string
}.

Inductive exn :=
| NameError (name : string)
| NoSchemaMatched (metric : string)
| StorageError (path : string).

(** Log lines, one constructor per format string of the module. *)
Inductive log_entry :=
| Msg_sorted (queues : nat) (seconds : Z)
| Msg_contention (metric : string)
| Creates_matched (metric schema : string)
| Creates_creating (path : string)
| Updates_wrote (pointCount : nat) (metric : string) (updateTime : Z)
| Err (e : exn).

(** What the writer did, newest first. *)
Inductive event :=
| Yielded (metric : string) (datapoints : list datapoint)
          (dbFilePath : string) (dbFileExists : bool)
| Mkdir (dir : string)
| Created (path : string) (archiveConfig : list (Z * Z)) (t : Z) (ok : bool)
| Chmod (path : string)
| Committed (path : string) (datapoints : list datapoint) (t2 : Z)
| UpdateFailed (path : string) (datapoints : list datapoint)
| Slept (d : Z)
| CacheSpaceAvailable.

(** What other threads do to the cache between two of the writer's
    accesses: producers store points; an entry can also disappear. *)
Inductive cache_op :=
| Store (metric : string) (p : datapoint)
| Remove (metric : string).

Record Instrumentation := {
  creates : Z;
  errors : Z;
  committedPoints : Z;
  updateTimes : list Z
}.

Record World := {
  (* module globals *)
  lastCreateInterval : Z;
  createCount : Z;
  schemas : list Schema;
  scope : list string;
  cacheTooFull : bool;
  (* collaborators *)
  cache : gmap string (list datapoint);
  files : gset string;
  now : Z;
  (* answers of the environment *)
  clock : list N;
  producers : list (list cache_op);
  create_io : list bool;
  update_io : list bool;
  running : list bool;
  (* outputs *)
  log : list log_entry;
  instr : Instrumentation;
  history : list event
}.

Definition set_lastCreateInterval (v : Z) (w : World) : World :=
  {| lastCreateInterval := v; createCount := createCount w;
     schemas := schemas w; scope := scope w; cacheTooFull := cacheTooFull w;
     cache := cache w; files := files w; now := now w; clock := clock w;
     producers := producers w; create_io := create_io w;
     update_io := update_io w; running := running w; log := log w;
     instr := instr w; history := history w |}.

Definition set_createCount (v : Z) (w : World) : World :=
  {| lastCreateInterval := lastCreateInterval w; createCount := v;
     schemas := schemas w; scope := scope w; cacheTooFull := cacheTooFull w;
     cache := cache w; files := files w; now := now w; clock := clock w;
     producers := producers w; create_io := create_io w;
     update_io := update_io w; running := running w; log := log w;
     instr := instr w; history := history w |}.

Definition set_cacheTooFull (v : bool) (w : World) : World :=
  {| lastCreateInterval := lastCreateInterval w; createCount := createCount w;
     schemas := schemas w; scope := scope w; cacheTooFull := v;
     cache := cache w; files := files w; now := now w; clock := clock w;
     producers := producers w; create_io := create_io w;
     update_io := update_io w; running := running w; log := log w;
     instr := instr w; history := history w |}.

Definition set_cache (v : gmap string (list datapoint)) (w : World) : World :=
  {| lastCreateInterval := lastCreateInterval w; createCount := createCount w;
     schemas := schemas w; scope := scope w; cacheTooFull := cacheTooFull w;
     cache := v; files := files w; now := now w; clock := clock w;
     producers := producers w; create_io := create_io w;
     update_io := update_io w; running := running w; log := log w;
     instr := instr w; history := history w |}.

Definition set_files (v : gset string) (w : World) : World :=
  {| lastCreateInterval := lastCreateInterval w; createCount := createCount w;
     schemas := schemas w; scope := scope w; cacheTooFull := cacheTooFull w;
     cache := cache w; files := v; now := now w; clock := clock w;
     producers := producers w; create_io := create_io w;
     update_io := update_io w; running := running w; log := log w;
     instr := instr w; history := history w |}.

Definition set_now (v : Z) (w : World) : World :=
  {| lastCreateInterval := lastCreateInterval w; createCount := createCount w;
     schemas := schemas w; scope := scope w; cacheTooFull := cacheTooFull w;
     cache := cache w; files := files w; now := v; clock := clock w;
     producers := producers w; create_io := create_io w;
     update_io := update_io w; running := running w; log := log w;
     instr := instr w; history := history w |}.

Definition set_clock (v : list N) (w : World) : World :=
  {| lastCreateInterval := lastCreateInterval w; createCount := createCount w;
     schemas := schemas w; scope := scope w; cacheTooFull := cacheTooFull w;
     cache := cache w; files := files w; now := now w; clock := v;
     producers := producers w; create_io := create_io w;
     update_io := update_io w; running := running w; log := log w;
     instr := instr w; history := history w |}.

Definition set_producers (v : list (list cache_op)) (w : World) : World :=
  {| lastCreateInterval := lastCreateInterval w; createCount := createCount w;
     schemas := schemas w; scope := scope w; cacheTooFull := cacheTooFull w;
     cache := cache w; files := files w; now := now w; clock := clock w;
     producers := v; create_io := create_io w;
     update_io := update_io w; running := running w; log := log w;
     instr := instr w; history := history w |}.

Definition set_create_io (v : list bool) (w : World) : World :=
  {| lastCreateInterval := lastCreateInterval w; createCount := createCount w;
     schemas := schemas w; scope := scope w; cacheTooFull := cacheTooFull w;
     cache := cache w; files := files w; now := now w; clock := clock w;
     producers := producers w; create_io := v;
     update_io := update_io w; running := running w; log := log w;
     instr := instr w; history := history w |}.

Definition set_update_io (v : list bool) (w : World) : World :=
  {| lastCreateInterval := lastCreateInterval w; createCount := createCount w;
     schemas := schemas w; scope := scope w; cacheTooFull := cacheTooFull w;
     cache := cache w; files := files w; now := now w; clock := clock w;
     producers := producers w; create_io := create_io w;
     update_io := v; running := running w; log := log w;
     instr := instr w; history := history w |}.

Definition set_running (v : list bool) (w : World) : World :=
  {| lastCreateInterval := lastCreateInterval w; createCount := createCount w;
     schemas := schemas w; scope := scope w; cacheTooFull := cacheTooFull w;
     cache := cache w; files := files w; now := now w; clock := clock w;
     producers := producers w; create_io := create_io w;
     update_io := update_io w; running := v; log := log w;
     instr := instr w; history := history w |}.

Definition set_log (v : list log_entry) (w : World) : World :=
  {| lastCreateInterval := lastCreateInterval w; createCount := createCount w;
     schemas := schemas w; scope := scope w; cacheTooFull := cacheTooFull w;
     cache := cache w; files := files w; now := now w; clock := clock w;
     producers := producers w; create_io := create_io w;
     update_io := update_io w; running := running w; log := v;
     instr := instr w; history := history w |}.

Definition set_instr (v : Instrumentation) (w : World) : World :=
  {| lastCreateInterval := lastCreateInterval w; createCount := createCount w;
     schemas := schemas w; scope := scope w; cacheTooFull := cacheTooFull w;
     cache := cache w; files := files w; now := now w; clock := clock w;
     producers := producers w; create_io := create_io w;
     update_io := update_io w; running := running w; log := log w;
     instr := v; history := history w |}.

Definition set_history (v : list event) (w : World) : World :=
  {| lastCreateInterval := lastCreateInterval w; createCount := createCount w;
     schemas := schemas w; scope := scope w; cacheTooFull := cacheTooFull w;
     cache := cache w; files := files w; now := now w; clock := clock w;
     producers := producers w; create_io := create_io w;
     update_io := update_io w; running := running w; log := log w;
     instr := instr w; history := v |}.

(** ** The monad: state, exceptions, and running out of fuel *)

Inductive Result (A : Type) :=
| Ok (a : A) (w : World)
| Raise (e : exn) (w : World)
| Timeout (w : World).
Arguments Ok {A} a w.
Arguments Raise {A} e w.
Arguments Timeout {A} w.

Definition M (A : Type) : Type := World -> Result A.

Definition ret {A} (a : A) : M A := fun w => Ok a w.

Definition bind {A B} (m : M A) (k : A -> M B) : M B :=
  fun w => match m w with
           | Ok a w' => k a w'
           | Raise e w' => Raise e w'
           | Timeout w' => Timeout w'
           end.

Definition raise {A} (e : exn) : M A := fun w => Raise e w.

Definition final {A} (r : Result A) : World :=
  match r with Ok _ w => w | Raise _ w => w | Timeout w => w end.

Declare Scope writer_scope.
Delimit Scope writer_scope with writer.
Notation "x <- m ;; k" := (bind m (fun x => k))
  (at level 100, m at next level, right associativity) : writer_scope.
Notation "m ;; k" := (bind m (fun _ => k))
  (at level 100, right associativity) : writer_scope.
Local Open Scope writer_scope.

(** [for x in l: body], threading the local variables [s]. *)
Fixpoint for_each {A S} (l : list A) (body : A -> S -> M S) (s : S) : M S :=
  match l with
  | [] => ret s
  | x :: rest => s' <- body x s ;; for_each rest body s'
  end.

(** [when c m]: [if c: m]. *)
Definition when (c : bool) (m : M unit) : M unit :=
  if c then m else ret tt.

(** ** The collaborators *)

(** [time.time()]: the clock moves forward by the next advance of the
    environment, and the new time is read. *)
Definition next_tick (w : World) : Z := Z.of_N (hd 0%N (clock w)).

(** The world after a reading of the clock. *)
Definition tick (w : World) : World :=
  set_clock (tl (clock w)) (set_now (now w + next_tick w) w).

Definition time_time : M Z := fun w => Ok (now w + next_tick w) (tick w).

(** [time.sleep(d)]. *)
Definition time_sleep (d : Z) : M unit := fun w =>
  Ok tt (set_history (Slept d :: history w) (set_now (now w + d) w)).

(** [int(t)] on a time in ticks: whole seconds, truncated. *)
Definition py_int (t : Z) : Z := Z.quot t TICKS.

Definition log_write (e : log_entry) : M unit := fun w =>
  Ok tt (set_log (e :: log w) w).

Definition emit (ev : event) : M unit := fun w =>
  Ok tt (set_history (ev :: history w) w).

(** Modelled from the spec: the shared queue, [carbon.cache.MetricCache],
    is a dictionary from metric name to its backlog with an atomic
    snapshot of counts, an atomic claim of a metric's backlog that can
    find the metric gone, an occupancy and an emptiness test.  Before
    each of the writer's accesses the other threads get their turn. *)
Definition apply_op (c : gmap string (list datapoint)) (o : cache_op)
  : gmap string (list datapoint) :=
  match o with
  | Store metric p => <[metric := default [] (c !! metric) ++ [p]]> c
  | Remove metric => delete metric c
  end.

Definition disturbed (w : World) : gmap string (list datapoint) :=
  foldl apply_op (cache w) (hd [] (producers w)).
Arguments disturbed : simpl never.

Definition interfere (w : World) : World :=
  set_producers (tl (producers w)) (set_cache (disturbed w) w).

(** [MetricCache.counts()]. *)
Definition counts (c : gmap string (list datapoint)) : list (string * nat) :=
  (fun e : string * list datapoint => (e.1, length e.2)) <$> map_to_list c.
Arguments counts : simpl never.

Definition MetricCache_counts : M (list (string * nat)) := fun w =>
  let w' := interfere w in
  Ok (counts (cache w')) w'.

(** [MetricCache.pop(metric)]; [None] stands for [KeyError]. *)
Definition MetricCache_pop (metric : string) : M (option (list datapoint)) :=
  fun w =>
    let w' := interfere w in
    match cache w' !! metric with
    | Some datapoints =>
        Ok (Some datapoints) (set_cache (delete metric (cache w')) w')
    | None => Ok None w'
    end.

(** The truth value of the dictionary in [while MetricCache]. *)
Definition MetricCache_bool : M bool := fun w =>
  let w' := interfere w in
  Ok (negb (Nat.eqb (size (cache w')) 0)) w'.

(** [MetricCache.size]: the number of points held. *)
Definition occupancy (c : gmap string (list datapoint)) : Z :=
  map_fold (fun _ (dps : list datapoint) n => n + Z.of_nat (length dps)) 0 c.
Arguments occupancy : simpl never.

Definition MetricCache_size : M Z := fun w => Ok (occupancy (cache w)) w.

(** [os.path.exists]. *)
Definition os_path_exists (path : string) : M bool := fun w =>
  Ok (bool_decide (path ∈ files w)) w.

(** [whisper.create]: the call is recorded with the time it is made at.
    That is later than the last reading of the clock, by the next advance
    of the environment: the pop from the cache, the search of the schemas
    and the [mkdir] command (lines 79-113) lie between the throttle's
    reading and the call.  The environment decides whether the call
    raises. *)
Definition whisper_create (path : string) (archiveConfig : list (Z * Z))
  : M unit := fun w =>
  let w0 := tick w in
  let ok := hd true (create_io w0) in
  let w1 := set_create_io (tl (create_io w0))
              (set_history (Created path archiveConfig (now w0) ok
                              :: history w0) w0) in
  if ok then Ok tt (set_files ({[path]} ∪ files w1) w1)
  else Raise (StorageError path) w1.

(** [whisper.update_many] under the caller's [try]: [false] when it
    raises. *)
Definition whisper_update_many (path : string) (datapoints : list datapoint)
  : M bool := fun w =>
  Ok (hd true (update_io w)) (set_update_io (tl (update_io w)) w).

Definition increment_creates : M unit := fun w =>
  let i := instr w in
  Ok tt (set_instr {| creates := creates i + 1; errors := errors i;
                      committedPoints := committedPoints i;
                      updateTimes := updateTimes i |} w).

Definition increment_errors : M unit := fun w =>
  let i := instr w in
  Ok tt (set_instr {| creates := creates i; errors := errors i + 1;
                      committedPoints := committedPoints i;
                      updateTimes := updateTimes i |} w).

Definition increment_committedPoints (n : Z) : M unit := fun w =>
  let i := instr w in
  Ok tt (set_instr {| creates := creates i; errors := errors i;
                      committedPoints := committedPoints i + n;
                      updateTimes := updateTimes i |} w).

Definition append_updateTimes (d : Z) : M unit := fun w =>
  let i := instr w in
  Ok tt (set_instr {| creates := creates i; errors := errors i;
                      committedPoints := committedPoints i;
                      updateTimes := updateTimes i ++ [d] |} w).

(** Reading a global name: [NameError] when neither the module nor the
    builtins bind it. *)
Definition load_global (name : string) : M unit := fun w =>
  if bool_decide (name ∈ scope w) then Ok tt w else Raise (NameError name) w.

Definition state_cacheTooFull : M bool :=
  load_global "state" ;; fun w => Ok (cacheTooFull w) w.

(** Modelled from the spec: [events.cacheSpaceAvailable()] signals the
    producers and clears the backpressure flag. *)
Definition events_cacheSpaceAvailable : M unit := fun w =>
  Ok tt (set_cacheTooFull false
           (set_history (CacheSpaceAvailable :: history w) w)).

(** Reading the global [schemas]. *)
Definition read_schemas : M (list Schema) := fun w => Ok (schemas w) w.

(** [reactor.running]. *)
Definition reactor_running : M bool := fun w =>
  Ok (hd false (running w)) (set_running (tl (running w)) w).

(** [try: m except: handler]: the bare [except] catches everything. *)
Definition try_except {A} (m : M A) (handler : exn -> M A) : M A := fun w =>
  match m w with
  | Raise e w' => handler e w'
  | r => r
  end.

(** ** [os.path] on POSIX *)

Definition slash : ascii := "/"%char.

Definition is_slash (c : ascii) : bool := Ascii.eqb c slash.

Fixpoint drop_slashes (l : list ascii) : list ascii :=
  match l with
  | c :: l' => if is_slash c then drop_slashes l' else l
  | [] => []
  end.

(** Splits the reversed path at its last slash: (reversed tail, reversed
    head with the slash). *)
Fixpoint rsplit (l : list ascii) : list ascii * list ascii :=
  match l with
  | [] => ([], [])
  | c :: l' => if is_slash c then ([], l)
               else let '(t, h) := rsplit l' in (c :: t, h)
  end.

Definition dirname (p : string) : string :=
  let head := (rsplit (rev (String.list_ascii_of_string p))).2 in
  String.string_of_list_ascii
    (rev (match drop_slashes head with [] => head | h => h end)).

Definition basename (p : string) : string :=
  String.string_of_list_ascii (rev (rsplit (rev (String.list_ascii_of_string p))).1).

Definition join (a b : string) : string :=
  match String.list_ascii_of_string b, rev (String.list_ascii_of_string a) with
  | c :: _, _ => if is_slash c then b
                 else match rev (String.list_ascii_of_string a) with
                      | [] => b
                      | d :: _ => if is_slash d then a +:+ b else a +:+ "/" +:+ b
                      end
  | [], [] => b
  | [], d :: _ => if is_slash d then a else a +:+ "/"
  end.

(** [s[:-n]]. *)
Definition drop_last (n : nat) (s : string) : string :=
  String.string_of_list_ascii
    (rev (drop n (rev (String.list_ascii_of_string s)))).

(** ** Sorting *)

(** [metrics.sort(key=lambda item: item[1], reverse=True)]: the stable
    sort by decreasing count. *)
Fixpoint insert_desc (x : string * nat) (l : list (string * nat))
  : list (string * nat) :=
  match l with
  | [] => [x]
  | y :: l' => if (x.2 <? y.2)%nat then y :: insert_desc x l' else x :: l
  end.

Definition sort_desc (l : list (string * nat)) : list (string * nat) :=
  foldr insert_desc [] l.
Arguments sort_desc : simpl never.

(** ** The creation throttle (lines 60-68) *)

(** The decision taken for a metric without a file, from the limit, the
    time read and the two globals; it returns whether the metric goes on
    to be created, and the new [lastCreateInterval] and [createCount]. *)
Definition throttle_step (K now_ last count : Z) : bool * Z * Z :=
  let count := count + 1 in
  if 60 * TICKS <=? now_ - last then (true, now_, 1)
  else if K <=? count then (false, last, count)
  else (true, last, count).

(** The throttle in the words of the spec (section 4.3): reset and allow
    when more than 60 seconds have elapsed; otherwise increment and allow
    when the count in the window is below the maximum; otherwise deny. *)
Definition spec_allowCreate (K now_ last count : Z) : bool * Z * Z :=
  if 60 * TICKS <? now_ - last then (true, now_, 1)
  else if count <? K then (true, last, count + 1)
  else (false, last, count).

(** ** The writer *)

Record write_unit := {
  u_metric : string;
  u_datapoints : list datapoint;
  u_dbFilePath : string;
  u_dbFileExists : bool
}.

(** The local variables of [writeCachedDataPoints]. *)
Record Locals := {
  updates : Z;
  lastSecond : Z;
  dataWritten : bool
}.

Section Writer.

Variable cfg : Config.

(** [MetricCache.size < CACHE_SIZE_LOW_WATERMARK], the watermark being
    [settings.MAX_CACHE_SIZE * 0.95]. *)
Definition below_low_watermark (size : Z) : bool :=
  20 * size <? 19 * MAX_CACHE_SIZE cfg.

Definition creation_throttle : M bool := fun w =>
  match time_time w with
  | Ok now_ w1 =>
      let '(allowed, last, count) :=
        throttle_step (MAX_CREATES_PER_MINUTE cfg) now_
          (lastCreateInterval w1) (createCount w1) in
      Ok allowed (set_createCount count (set_lastCreateInterval last w1))
  | Raise e w1 => Raise e w1
  | Timeout w1 => Timeout w1
  end.

(** One turn of the [for] loop of the generator (lines 56-84); [yield_]
    is the body of the consumer's [for] loop, run at the [yield]. *)
Definition visit {S} (yield_ : write_unit -> S -> M S)
    (item : string * nat) (s : S) : M S :=
  let metric := item.1 in
  let dbFilePath := getFilesystemPath cfg metric in
  dbFileExists <- os_path_exists dbFilePath ;;
  go_on <- (if dbFileExists then ret true
            else allowed <- creation_throttle ;;
                 if allowed then ret true
                 else MetricCache_pop metric ;; ret false) ;;
  if go_on : bool then
    popped <- MetricCache_pop metric ;;
    match popped with
    | None => log_write (Msg_contention metric) ;; ret s
    | Some datapoints =>
        emit (Yielded metric datapoints dbFilePath dbFileExists) ;;
        yield_ {| u_metric := metric; u_datapoints := datapoints;
                  u_dbFilePath := dbFilePath;
                  u_dbFileExists := dbFileExists |} s
    end
  else ret s.

(** Lines 47-54, up to the [for] loop. *)
Definition snapshot : M (list (string * nat)) :=
  metrics <- MetricCache_counts ;;
  t <- time_time ;;
  let metrics := sort_desc metrics in
  t' <- time_time ;;
  log_write (Msg_sorted (length metrics) (t' - t)) ;;
  tooFull <- state_cacheTooFull ;;
  (if tooFull : bool then
     size <- MetricCache_size ;;
     when (below_low_watermark size) events_cacheSpaceAvailable
   else ret tt) ;;
  ret metrics.

Definition optimalWriteOrder {S} (yield_ : write_unit -> S -> M S) (s : S)
  : M S :=
  metrics <- snapshot ;;
  for_each metrics (visit yield_) s.

Definition createMetaFile (metric : string) (schema : Schema) (path : string)
  : M unit := ret tt.

(** Lines 98-121: creating the file of a new metric. *)
Definition create_file (metric dbFilePath : string) : M unit :=
  schemas_ <- read_schemas ;;
  match find (fun schema => schema_matches schema metric) schemas_ with
  | Some schema =>
      log_write (Creates_matched metric (schema_name schema)) ;;
      let archiveConfig := schema_archives schema in
      match archiveConfig with
      | [] => raise (NoSchemaMatched metric)
      | _ :: _ =>
          let dbDir := dirname dbFilePath in
          emit (Mkdir dbDir) ;;
          log_write (Creates_creating dbFilePath) ;;
          whisper_create dbFilePath archiveConfig ;;
          emit (Chmod dbFilePath) ;;
          increment_creates ;;
          let dbFileName := basename dbFilePath in
          let metaFilePath :=
            join dbDir (drop_last 4 dbFileName +:+ ".context.pickle") in
          createMetaFile metric schema metaFilePath
      end
  | None => raise (NoSchemaMatched metric)
  end.

(** Lines 98-121 with their test: nothing to do for a file that
    exists. *)
Definition ensure_file (u : write_unit) : M unit :=
  if u_dbFileExists u then ret tt
  else create_file (u_metric u) (u_dbFilePath u).

(** Lines 139-148: the limit on updates per second, after a commit that
    returned at [t2]. *)
Definition rate_limit (t2 : Z) (loc : Locals) : M Locals :=
  let thisSecond := py_int t2 in
  if negb (thisSecond =? lastSecond loc) then
    ret {| updates := 0; lastSecond := thisSecond;
           dataWritten := dataWritten loc |}
  else
    let updates' := updates loc + 1 in
    when (MAX_UPDATES_PER_SECOND cfg <=? updates')
         (time_sleep (py_int (t2 + TICKS) * TICKS - t2)) ;;
    ret {| updates := updates'; lastSecond := lastSecond loc;
           dataWritten := dataWritten loc |}.

(** Lines 123-148: the update under [try], its handler and its [else]
    branch. *)
Definition commit (u : write_unit) (loc : Locals) : M Locals :=
  let metric := u_metric u in
  let datapoints := u_datapoints u in
  let dbFilePath := u_dbFilePath u in
  t1 <- time_time ;;
  ok <- whisper_update_many dbFilePath datapoints ;;
  if ok : bool then
    t2 <- time_time ;;
    emit (Committed dbFilePath datapoints t2) ;;
    let updateTime := t2 - t1 in
    let pointCount := length datapoints in
    increment_committedPoints (Z.of_nat pointCount) ;;
    append_updateTimes updateTime ;;
    when (LOG_UPDATES cfg)
         (log_write (Updates_wrote pointCount metric updateTime)) ;;
    rate_limit t2 loc
  else
    emit (UpdateFailed dbFilePath datapoints) ;;
    log_write (Err (StorageError dbFilePath)) ;;
    increment_errors ;;
    ret loc.

(** Lines 96-148: the body of the [for] loop of
    [writeCachedDataPoints]. *)
Definition write_body (u : write_unit) (loc : Locals) : M Locals :=
  let loc := {| updates := updates loc; lastSecond := lastSecond loc;
                dataWritten := true |} in
  ensure_file u ;;
  commit u loc.

(** The [while MetricCache] loop, for at most [fuel] tests of the
    cache. *)
Fixpoint drain (fuel : nat) (loc : Locals) : M unit :=
  match fuel with
  | O => fun w => Timeout w
  | S fuel' =>
      nonempty <- MetricCache_bool ;;
      if nonempty : bool then
        loc' <- optimalWriteOrder write_body
                  {| updates := updates loc; lastSecond := lastSecond loc;
                     dataWritten := false |} ;;
        when (negb (dataWritten loc')) (time_sleep (TICKS / 10)) ;;
        drain fuel' loc'
      else ret tt
  end.

Definition writeCachedDataPoints (fuel : nat) : M unit :=
  drain fuel {| updates := 0; lastSecond := 0; dataWritten := false |}.

(** [writeForever], for at most [fuel] tests of [reactor.running]; each
    call of [writeCachedDataPoints] gets [inner] fuel. *)
Fixpoint writeForever (inner fuel : nat) : M unit :=
  match fuel with
  | O => fun w => Timeout w
  | S fuel' =>
      r <- reactor_running ;;
      if r : bool then
        try_except (writeCachedDataPoints inner)
                   (fun e => log_write (Err e)) ;;
        time_sleep TICKS ;;
        writeForever inner fuel'
      else ret tt
  end.

End Writer.

(** ** The global scope of the module *)

(** The names bound at module level, in the order the statements of the
    file bind them: the imports (lines 16-34), the assignments (lines
    37-40), the functions and the class. *)
Definition module_globals : list string :=
  [ "os"; "time"; "join"; "exists"; "dirname"; "basename"; "pickle";
    "whisper"; "MetricCache"; "getFilesystemPath"; "loadStorageSchemas";
    "settings"; "log"; "events"; "instrumentation"; "reactor";
    "LoopingCall"; "Service";
    "lastCreateInterval"; "createCount"; "schemas";
    "CACHE_SIZE_LOW_WATERMARK";
    "optimalWriteOrder"; "writeCachedDataPoints"; "createMetaFile";
    "writeForever"; "reloadStorageSchemas"; "WriterService";
    "__name__"; "__doc__"; "__file__"; "__package__"; "__builtins__" ].

(** The names of Python 2's [__builtin__] module. *)
Definition python2_builtins : list string :=
  [ "ArithmeticError"; "AssertionError"; "AttributeError"; "BaseException";
    "BufferError"; "BytesWarning"; "DeprecationWarning"; "EOFError";
    "Ellipsis"; "EnvironmentError"; "Exception"; "False";
    "FloatingPointError"; "FutureWarning"; "GeneratorExit"; "IOError";
    "ImportError"; "ImportWarning"; "IndentationError"; "IndexError";
    "KeyError"; "KeyboardInterrupt"; "LookupError"; "MemoryError";
    "NameError"; "None"; "NotImplemented"; "NotImplementedError"; "OSError";
    "OverflowError"; "PendingDeprecationWarning"; "ReferenceError";
    "RuntimeError"; "RuntimeWarning"; "StandardError"; "StopIteration";
    "SyntaxError"; "SyntaxWarning"; "SystemError"; "SystemExit"; "TabError";
    "True"; "TypeError"; "UnboundLocalError"; "UnicodeDecodeError";
    "UnicodeEncodeError"; "UnicodeError"; "UnicodeTranslateError";
    "UnicodeWarning"; "UserWarning"; "ValueError"; "Warning";
    "ZeroDivisionError"; "__debug__"; "__doc__"; "__import__"; "__name__";
    "__package__"; "abs"; "all"; "any"; "apply"; "basestring"; "bin"; "bool";
    "buffer"; "bytearray"; "bytes"; "callable"; "chr"; "classmethod"; "cmp";
    "coerce"; "compile"; "complex"; "copyright"; "credits"; "delattr";
    "dict"; "dir"; "divmod"; "enumerate"; "eval"; "execfile"; "exit"; "file";
    "filter"; "float"; "format"; "frozenset"; "getattr"; "globals";
    "hasattr"; "hash"; "help"; "hex"; "id"; "input"; "int"; "intern";
    "isinstance"; "issubclass"; "iter"; "len"; "license"; "list"; "locals";
    "long"; "map"; "max"; "memoryview"; "min"; "next"; "object"; "oct";
    "open"; "ord"; "pow"; "print"; "property"; "quit"; "range"; "raw_input";
    "reduce"; "reload"; "repr"; "reversed"; "round"; "set"; "setattr";
    "slice"; "sorted"; "staticmethod"; "str"; "sum"; "super"; "tuple";
    "type"; "unichr"; "unicode"; "vars"; "xrange"; "zip" ].

(** What a global name can resolve to in the module as it is written. *)
Definition module_scope : list string := module_globals ++ python2_builtins.

(** The world once the module is loaded: the globals as lines 37-39 set
    them, nothing logged or done yet. *)
Definition loaded (names : list string) (sch : list Schema)
    (c : gmap string (list datapoint)) (fs : gset string) (t : Z) : World :=
  {| lastCreateInterval := 0; createCount := 0; schemas := sch;
     scope := names; cacheTooFull := false;
     cache := c; files := fs; now := t;
     clock := []; producers := []; create_io := []; update_io := [];
     running := [];
     log := [];
     instr := {| creates := 0; errors := 0; committedPoints := 0;
                 updateTimes := [] |};
     history := [] |}.

(** The scope of a module that also binds [state]. *)
Definition scope_with_state : list string := "state" :: module_scope.

(** ** Reading the history *)

Definition created_at (ev : event) : option Z :=
  match ev with Created _ _ t _ => Some t | _ => None end.

Definition committed_at (ev : event) : option Z :=
  match ev with Committed _ _ t2 => Some t2 | _ => None end.

Definition yielded_metric (ev : event) : option string :=
  match ev with Yielded metric _ _ _ => Some metric | _ => None end.

Definition slept (ev : event) : option Z :=
  match ev with Slept d => Some d | _ => None end.

(** The times of the calls of [whisper.create], newest first. *)
Definition creations (h : list event) : list Z := omap created_at h.

(** The times at which commits returned, newest first. *)
Definition commits (h : list event) : list Z := omap committed_at h.

(** The metrics yielded by the generator, oldest first. *)
Definition yields (h : list event) : list string :=
  rev (omap yielded_metric h).

Definition sleeps (h : list event) : list Z := omap slept h.

(** How many of the times [ts] lie in the interval [a, b). *)
Fixpoint tally (a b : Z) (ts : list Z) : Z :=
  match ts with
  | [] => 0
  | t :: ts' => (if (a <=? t) && (t <? b) then 1 else 0) + tally a b ts'
  end.

Definition MINUTE : Z := 60 * TICKS.

(** ** Reasoning about runs *)

(** [wp m Q E w]: running [m] from [w] ends in a world that satisfies
    [Q] with the value returned, or [E] when an exception is raised or
    the fuel runs out. *)
Definition wp {A} (m : M A) (Q : A -> World -> Prop) (E : World -> Prop)
    (w : World) : Prop :=
  match m w with
  | Ok a w' => Q a w'
  | Raise _ w' => E w'
  | Timeout w' => E w'
  end.

(** ** Example configurations and worlds *)

Definition dots_to_slashes (s : string) : string :=
  String.string_of_list_ascii
    (map (fun c => if Ascii.eqb c "."%char then slash else c)
         (String.list_ascii_of_string s)).

Definition ex_path (metric : string) : string :=
  "/whisper/" +:+ dots_to_slashes metric +:+ ".wsp".

(** Limits [K] creations per minute and [M] updates per second. *)
Definition ex_cfg (K M : Z) : Config :=
  {| MAX_CACHE_SIZE := 1000; MAX_CREATES_PER_MINUTE := K;
     MAX_UPDATES_PER_SECOND := M; LOG_UPDATES := false;
     getFilesystemPath := ex_path |}.

Definition default_schema : Schema :=
  {| schema_name := "default"; schema_matches := fun _ => true;
     schema_archives := [(60, 1440)] |}.

Definition points (n : nat) : list datapoint := replicate n (0, 1%Q).

(** The throttle's window opened at second 1000 and has counted two
    creations; it is now second 1030. *)
Definition ex_window : World :=
  set_createCount 2
    (set_lastCreateInterval (1000 * TICKS)
       (loaded scope_with_state [default_schema] {[ "c" := points 2 ]} ∅
          (1030 * TICKS))).

(** The second world has the same yields, creations and commits in its
    history as the first. *)
Definition same_deeds (w w' : World) : Prop :=
  yields (history w') = yields (history w) /\
  creations (history w') = creations (history w) /\
  commits (history w') = commits (history w).

(** The throttle's window has counted its maximum of 2 creations; the
    cache holds metric [c], which has no file. *)
Definition ex_saturated : World :=
  set_createCount 2
    (set_lastCreateInterval (1000 * TICKS)
       (loaded scope_with_state [default_schema] {[ "c" := points 2 ]} ∅
          (1010 * TICKS))).

(** Metric [d] has no file and no schema is configured; the reactor runs
    for one turn of [writeForever]. *)
Definition ex_no_schema : World :=
  set_running [true; false]
    (loaded scope_with_state [] {[ "d" := points 2 ]} ∅ (1000 * TICKS)).

(** Metrics [e] and [f] have files; the first update fails. *)
Definition ex_io_error : World :=
  set_update_io [false; true]
    (loaded scope_with_state [default_schema]
       {[ "e" := points 3; "f" := points 1 ]}
       {[ ex_path "e"; ex_path "f" ]} (1000 * TICKS)).

(** The world at the [yield] of a turn that popped [datapoints] from
    [w1]. *)
Definition at_yield (metric : string) (datapoints : list datapoint)
    (path : string) (fileExists : bool) (w1 : World) : World :=
  let wi := interfere w1 in
  set_history (Yielded metric datapoints path fileExists :: history wi)
    (set_cache (delete metric (cache wi)) wi).

(** The world after the handler of a failed update. *)
Definition after_failure (path : string) (datapoints : list datapoint)
    (w1 : World) : World :=
  let t1 := now w1 + next_tick w1 in
  let wa := set_update_io (tl (update_io w1))
              (set_clock (tl (clock w1)) (set_now t1 w1)) in
  let wb := set_log (Err (StorageError path) :: log w1)
              (set_history (UpdateFailed path datapoints :: history w1) wa) in
  set_instr {| creates := creates (instr w1);
               errors := errors (instr w1) + 1;
               committedPoints := committedPoints (instr w1);
               updateTimes := updateTimes (instr w1) |} wb.

(** The world after [writeForever] has caught [e]: logged, and slept for
    a second. *)
Definition after_catch (e : exn) (w : World) : World :=
  set_history (Slept TICKS :: history w)
    (set_now (now w + TICKS) (set_log (Err e :: log w) w)).

(** The world when the generator has taken its snapshot, sorted it and
    logged that. *)
Definition after_sort (w : World) : World :=
  let wi := interfere w in
  let w2 := tick (tick wi) in
  set_log (Msg_sorted (length (sort_desc (counts (cache wi))))
             (now w2 - now (tick wi)) :: log w2) w2.

(** [steady R m]: whatever [m] does from a world, returning, raising or
    running out of fuel, the world it ends in is related to that world
    by [R]. *)
Definition steady {A} (R : World -> World -> Prop) (m : M A) : Prop :=
  forall w, R w (final (m w)).

(** The value [f] reads in the world is the same after as before. *)
Definition keeps {T} (f : World -> T) : World -> World -> Prop :=
  fun w w' => f w' = f w.

(** Time does not go back. *)
Definition forward : World -> World -> Prop :=
  fun w w' => now w <= now w'.

Definition both (R1 R2 : World -> World -> Prop) : World -> World -> Prop :=
  fun w w' => R1 w w' /\ R2 w w'.

(** The world after [MetricCache.pop(metric)], found or not. *)
Definition popped (metric : string) (w : World) : World :=
  final (MetricCache_pop metric w).

(** The world after a turn that found the metric gone from the cache. *)
Definition contention (metric : string) (w1 : World) : World :=
  set_log (Msg_contention metric :: log (interfere w1)) (interfere w1).

(** The order of the sorted snapshot: counts do not increase. *)
Definition desc (x y : string * nat) : Prop := (y.2 <= x.2)%nat.

(** Metrics [a] and [b] have files; [a] has the larger backlog. *)
Definition ex_two : World :=
  loaded scope_with_state [default_schema]
    {[ "a" := points 5; "b" := points 1 ]}
    {[ ex_path "a"; ex_path "b" ]} (1000 * TICKS).

(** What the body of the loop leaves alone: the cache and the other
    threads' script, the schemas, the scope; files are only added, and if
    every creation still to come succeeds, that stays so. *)
Definition calm (w w' : World) : Prop :=
  producers w' = producers w /\ cache w' = cache w
  /\ schemas w' = schemas w /\ scope w' = scope w
  /\ files w ⊆ files w'
  /\ (Forall (eq true) (create_io w) -> Forall (eq true) (create_io w')).

(** The metric has a file, or a schema with archives matches it. *)
Definition creatable (cfg : Config) (w : World) (metric : string) : Prop :=
  getFilesystemPath cfg metric ∈ files w
  \/ exists schema,
       find (fun s => schema_matches s metric) (schemas w) = Some schema
       /\ schema_archives schema <> [].

(** The conditions under which a pass runs to its end: [state] resolves,
    no other thread touches the cache, no creation fails, and every
    metric in the cache can be given a file. *)
Definition undisturbed (cfg : Config) (w : World) : Prop :=
  "state" ∈ scope w /\ producers w = []
  /\ Forall (eq true) (create_io w)
  /\ (forall metric, metric ∈ dom (cache w) -> creatable cfg w metric).

(** Metrics [d] and [g] have no file and no schema is configured; no
    other thread is active. *)
Definition ex_stuck : World :=
  loaded scope_with_state [] {[ "d" := points 2; "g" := points 1 ]} ∅
    (1000 * TICKS).

(** ** The state of the creation throttle *)

(** What the throttle lets through in one window. *)
Definition window_budget (K : Z) : Z := Z.max 1 (K - 1).

(** How many of the times [ts] are [a] or later. *)
Fixpoint since (a : Z) (ts : list Z) : Z :=
  match ts with
  | [] => 0
  | t :: ts' => (if a <=? t then 1 else 0) + since a ts'
  end.

(** How many calls of [whisper.create] the history holds. *)
Definition created (w : World) : Z :=
  Z.of_nat (length (creations (history w))).

(** The throttle's globals and the creations are as before; time may
    have passed. *)
Definition idle (w w' : World) : Prop :=
  lastCreateInterval w' = lastCreateInterval w
  /\ createCount w' = createCount w
  /\ creations (history w') = creations (history w)
  /\ now w <= now w'.

(** The same, and no time has passed. *)
Definition frozen (w w' : World) : Prop :=
  lastCreateInterval w' = lastCreateInterval w
  /\ createCount w' = createCount w
  /\ creations (history w') = creations (history w)
  /\ now w' = now w.

(** The throttle's window opened at [L] and has counted [c] attempts;
    [extra] creations it has allowed are still to be made.  The calls
    made after [L] were allowed by this window; those made in the minute
    before [L] were allowed by this window or by the one before. *)
Definition window_open (K extra : Z) (w : World) : Prop :=
  let L := lastCreateInterval w in
  let c := createCount w in
  let cs := creations (history w) in
  let B := window_budget K in
  L <= now w
  /\ Forall (fun t => t <= now w) cs
  /\ since (L + 1) cs + extra <= c
  /\ since (L + 1) cs + extra <= B
  /\ since (L - MINUTE + 1) cs + extra <= B + c
  /\ since (L - MINUTE + 1) cs + extra <= 2 * B
  /\ (forall a, tally a (a + MINUTE) cs <= 2 * B).

(** The invariant of the throttle between two turns of the loop. *)
Definition throttled (K : Z) (w : World) : Prop := window_open K 0 w.

(** From [w] to [w'] the window has not gone back, and if it is still
    the window of [w], the calls of [whisper.create] made since [w] are
    no more than the counts that were left below the limit. *)
Definition same_window (K : Z) (w w' : World) : Prop :=
  lastCreateInterval w <= lastCreateInterval w'
  /\ (lastCreateInterval w' = lastCreateInterval w ->
      createCount w <= createCount w'
      /\ created w'
         <= created w
            + Z.max 0 (Z.min (createCount w') (K - 1) - createCount w)).

(** Six new metrics with backlogs of 6 down to 1 point, at the top of
    the loop of a pass.  Each turn reads the clock for the throttle,
    calls [whisper.create], and reads the clock before and after the
    update.  The first call of [whisper.create] comes half a second after
    the throttle's reading; the second turn starts 57.5 seconds later,
    and after that the turns are a second or a tenth of a second
    apart. *)
Definition ex_burst_loop : World :=
  set_clock [0; 500000; 0; 0;
             57500000; 0; 0; 0;
             1000000; 0; 0; 0;
             1000000; 0; 0; 0;
             100000; 0; 0; 0;
             100000; 0; 0; 0]%N
    (loaded scope_with_state [default_schema]
       {[ "m1" := points 6; "m2" := points 5; "m3" := points 4;
          "m4" := points 3; "m5" := points 2; "m6" := points 1 ]}
       ∅ (1000 * TICKS)).

(** The same at the call of [writeCachedDataPoints]: the snapshot reads
    the clock twice before the loop. *)
Definition ex_burst : World :=
  set_clock (0 :: 0 :: clock ex_burst_loop)%N ex_burst_loop.

(** ** The state of the rate limiter *)

(** How many commits returned in wall-clock second [s]. *)
Definition commits_in (s : Z) (w : World) : Z :=
  tally (s * TICKS) ((s + 1) * TICKS) (commits (history w)).

(** What the limiter lets through in one second. *)
Definition second_budget (M : Z) : Z := 1 + Z.max 1 M.

(** The commits are as before; time may have passed. *)
Definition unhurried (w w' : World) : Prop :=
  commits (history w') = commits (history w) /\ now w <= now w'.

(** Since the world [w0], no second has seen more commits than the
    limiter lets through. *)
Definition within_budget (M : Z) (w0 w : World) : Prop :=
  forall s, commits_in s w - commits_in s w0 <= second_budget M.

(** The invariant of the limiter between two turns of the loop of a call
    that started in [w0]. *)
Definition limited (M : Z) (w0 : World) (loc : Locals) (w : World) : Prop :=
  0 <= now w
  /\ 0 <= updates loc <= Z.max 1 M
  /\ lastSecond loc * TICKS <= now w
  /\ (1 <= updates loc -> M <= updates loc ->
      (lastSecond loc + 1) * TICKS <= now w)
  /\ (forall s, lastSecond loc < s -> commits_in s w = commits_in s w0)
  /\ commits_in (lastSecond loc) w - commits_in (lastSecond loc) w0
     <= updates loc + 1
  /\ within_budget M w0 w.

(** Metrics [a] and [b] have files; every clock reading comes a tenth of
    a second after the one before. *)
Definition ex_quick_loop : World :=
  set_clock [100000; 100000; 100000; 100000]%N ex_two.

Definition ex_quick : World :=
  set_clock (0 :: 0 :: clock ex_quick_loop)%N ex_two.






(** ** The yields of a run and the schemas *)

(** A unit that was yielded for a new metric found a schema that matches
    its name; other events put no condition. *)
Definition served (sch : list Schema) (ev : event) : Prop :=
  match ev with
  | Yielded metric _ _ false =>
      find (fun s => schema_matches s metric) sch <> None
  | _ => True
  end.

(** From [w] to [w'] the schemas are the same and the history has grown
    by events that are all served. *)
Definition grows (sch : list Schema) (w w' : World) : Prop :=
  schemas w' = schemas w
  /\ exists l, history w' = l ++ history w /\ Forall (served sch) l.

(** The run from [w] ended in [w'] with the exception of line 108, at
    the [yield] of a new metric that no schema matches: that [yield] is
    the last event. *)
Definition aborted (sch : list Schema) (w : World) (e : exn) (w' : World)
  : Prop :=
  exists metric dps path w1,
    grows sch w w1
    /\ e = NoSchemaMatched metric
    /\ find (fun s => schema_matches s metric) sch = None
    /\ history w' = Yielded metric dps path false :: history w1.

(** What a run from [w] can end in. *)
Definition sound {A} (sch : list Schema) (w : World) (r : Result A) : Prop :=
  match r with
  | Ok _ w' => grows sch w w'
  | Timeout w' => grows sch w w'
  | Raise e w' => grows sch w w' \/ aborted sch w e w'
  end.

(** Metrics [d] and [g] have no file and no schema is configured; the
    reactor runs for one turn of [writeForever]. *)
Definition ex_stuck_forever : World := set_running [true; false] ex_stuck.

(** The cache [c'] is the cache [c] without the metrics [names]: their
    backlogs were claimed, the others are as they were. *)
Definition claimed (names : list string)
    (c c' : gmap string (list datapoint)) : Prop :=
  forall m, c' !! m = if bool_decide (m ∈ names) then None else c !! m.

(** The cache [c'] holds of the cache [c] the metrics [names] and
    nothing else. *)
Definition left_with (names : list string)
    (c c' : gmap string (list datapoint)) : Prop :=
  forall m, c' !! m = if bool_decide (m ∈ names) then c !! m else None.

(** Why a turn of the loop can raise: the new metric has no schema with
    archives (line 108), or [whisper.create] fails (line 114). *)
Definition turn_failure (cfg : Config) (w : World) (metric : string)
    (e : exn) : Prop :=
  (getFilesystemPath cfg metric ∉ files w)
  /\ ((e = NoSchemaMatched metric /\ ~ creatable cfg w metric)
      \/ (e = StorageError (getFilesystemPath cfg metric)
          /\ ~ Forall (eq true) (create_io w))).

(** Metric [c] has no file; the scope is the module's own. *)
Definition ex_as_written : World :=
  loaded module_scope [default_schema] {[ "c" := points 2 ]} ∅
    (1030 * TICKS).

(** Metric [a] has the larger backlog and no file, [b] has a file; the
    throttle's window has counted its maximum of 2 creations. *)
Definition ex_denied : World :=
  set_createCount 2
    (set_lastCreateInterval (1000 * TICKS)
       (loaded scope_with_state [default_schema]
          {[ "a" := points 5; "b" := points 1 ]}
          {[ ex_path "b" ]} (1010 * TICKS))).

(** Metrics [a] and [b] have files; the scope is the module's own. *)
Definition ex_two_as_written : World :=
  loaded module_scope [default_schema]
    {[ "a" := points 5; "b" := points 1 ]}
    {[ ex_path "a"; ex_path "b" ]} (1000 * TICKS).

(** * Properties *)

(** ** The monad and the loops *)

Lemma wp_bind {A B} (m : M A) (k : A -> M B) Q E w :
  wp m (fun a w' => wp (k a) Q E w') E w -> wp (bind m k) Q E w.
Proof. unfold wp, bind. destruct (m w); auto. Qed.

Lemma wp_mono {A} (m : M A) (Q Q' : A -> World -> Prop)
    (E E' : World -> Prop) w :
  wp m Q E w -> (forall a w', Q a w' -> Q' a w') ->
  (forall w', E w' -> E' w') -> wp m Q' E' w.
Proof. unfold wp. destruct (m w); auto. Qed.

Lemma wp_for_each {A S} (l : list A) (body : A -> S -> M S)
    (I : S -> World -> Prop) (E : World -> Prop) :
  (forall x s w, x ∈ l -> I s w -> wp (body x s) I E w) ->
  forall s w, I s w -> wp (for_each l body s) I E w.
Proof.
  induction l as [|x l IH]; intros Hbody s w HI; [exact HI|].
  cbn [for_each]. apply wp_bind.
  eapply wp_mono; [apply Hbody; [left | exact HI] | | auto].
  intros s' w' HI'. apply IH; [|exact HI'].
  intros y s0 w0 Hy. apply Hbody. by right.
Qed.

Lemma for_each_app {A S} (l1 l2 : list A) (body : A -> S -> M S) s w :
  for_each (l1 ++ l2) body s w
  = bind (for_each l1 body s) (for_each l2 body) w.
Proof.
  revert s w. induction l1 as [|x l1 IH]; intros s w; cbn [for_each app].
  - reflexivity.
  - unfold bind. destruct (body x s w); try reflexivity.
    rewrite IH. reflexivity.
Qed.

(** ** C4: the creation throttle *)

Lemma creation_throttle_eq cfg w :
  creation_throttle cfg w =
    let t := now w + next_tick w in
    let w1 := set_clock (tl (clock w)) (set_now t w) in
    let r := throttle_step (MAX_CREATES_PER_MINUTE cfg) t
               (lastCreateInterval w) (createCount w) in
    Ok r.1.1 (set_createCount r.2 (set_lastCreateInterval r.1.2 w1)).
Proof.
  unfold creation_throttle. cbn.
  destruct (throttle_step _ _ _ _) as [[b l] c]. reflexivity.
Qed.

Lemma creation_throttle_cases cfg w :
  let K := MAX_CREATES_PER_MINUTE cfg in
  let t := now w + next_tick w in
  let w1 := set_clock (tl (clock w)) (set_now t w) in
  creation_throttle cfg w =
    (if 60 * TICKS <=? t - lastCreateInterval w
     then Ok true (set_createCount 1 (set_lastCreateInterval t w1))
     else Ok (createCount w + 1 <? K)
             (set_createCount (createCount w + 1) w1)).
Proof.
  intros K t w1.
  rewrite creation_throttle_eq. unfold throttle_step. cbn zeta.
  fold t K.
  destruct (60 * TICKS <=? t - lastCreateInterval w) eqn:E1;
    [reflexivity|].
  destruct (K <=? createCount w + 1) eqn:E2; cbn.
  - assert ((createCount w + 1 <? K) = false) as -> by lia.
    destruct w; reflexivity.
  - assert ((createCount w + 1 <? K) = true) as -> by lia.
    destruct w; reflexivity.
Qed.

(** C4 (as the code has it).  On a metric without a file the throttle
    first increments [createCount] and reads the clock.  If at least 60
    seconds have passed since [lastCreateInterval], the window restarts
    now with a count of 1 and the creation is allowed.  Otherwise the
    creation is denied when the incremented count has reached
    [MAX_CREATES_PER_MINUTE], and allowed when it is still below; the
    count stays incremented either way.  So inside a window a creation is
    allowed if and only if the count before the increment is below the
    maximum minus one. *)
Theorem C4_creation_throttle cfg w :
  let K := MAX_CREATES_PER_MINUTE cfg in
  let t := now w + next_tick w in
  let w1 := set_clock (tl (clock w)) (set_now t w) in
  creation_throttle cfg w =
    (if 60 * TICKS <=? t - lastCreateInterval w
     then Ok true (set_createCount 1 (set_lastCreateInterval t w1))
     else Ok (createCount w + 1 <? K)
             (set_createCount (createCount w + 1) w1))
  /\ (forall now_ last count,
        now_ - last < 60 * TICKS ->
        ((throttle_step K now_ last count).1.1 = true <-> count < K - 1)).
Proof.
  intros K t w1. split; [apply creation_throttle_cases|].
  intros now_ last count Hwin. unfold throttle_step.
  assert ((60 * TICKS <=? now_ - last) = false) as -> by lia.
  destruct (K <=? count + 1) eqn:E; cbn; split; intros; try lia;
    congruence.
Qed.

(** C4, the claim as it is worded: with a limit of 3, a window that is
    30 seconds old and has counted 2 creations, the spec's algorithm
    allows the next creation (2 is below 3) and the code denies it; and
    exactly 60 seconds after the window began the code restarts the
    window where the spec's algorithm does not (60 is not more than
    60). *)
Lemma C4_counterexample :
  let cfg := ex_cfg 3 500 in
  let w := ex_window in
  now w - lastCreateInterval w < 60 * TICKS /\
  createCount w < MAX_CREATES_PER_MINUTE cfg /\
  (spec_allowCreate 3 (now w) (lastCreateInterval w) (createCount w)).1.1
    = true /\
  (exists w', creation_throttle cfg w = Ok false w') /\
  throttle_step 3 (1060 * TICKS) (1000 * TICKS) 0 = (true, 1060 * TICKS, 1) /\
  spec_allowCreate 3 (1060 * TICKS) (1000 * TICKS) 0
    = (true, 1000 * TICKS, 1).
Proof.
  cbn zeta. repeat split; try reflexivity.
  eexists. reflexivity.
Qed.

(** Splits a conjunction into its parts, and nothing else. *)
Ltac conjs := repeat match goal with |- _ /\ _ => split end.

(** ** C1: the name [state] *)

Lemma state_not_in_module_scope : "state" ∉ module_scope.
Proof. apply (bool_decide_unpack _). vm_compute. exact I. Qed.

Lemma snapshot_eq cfg w :
  snapshot cfg w =
    let metrics := sort_desc (counts (cache (interfere w))) in
    let w3 := after_sort w in
    if bool_decide ("state" ∈ scope w) then
      Ok metrics
         (if cacheTooFull w && below_low_watermark cfg (occupancy (cache w3))
          then set_cacheTooFull false
                 (set_history (CacheSpaceAvailable :: history w3) w3)
          else w3)
    else Raise (NameError "state") w3.
Proof.
  unfold snapshot, after_sort, bind, state_cacheTooFull, bind, load_global,
    when, MetricCache_counts, time_time, log_write, MetricCache_size.
  cbn.
  destruct (bool_decide ("state" ∈ scope w)); cbn; [|reflexivity].
  destruct (cacheTooFull w); cbn; [|reflexivity].
  destruct (below_low_watermark cfg _); reflexivity.
Qed.

Lemma snapshot_unbound cfg w :
  "state" ∉ scope w ->
  exists w', snapshot cfg w = Raise (NameError "state") w'
    /\ history w' = history w /\ cache w' = cache (interfere w)
    /\ instr w' = instr w /\ scope w' = scope w
    /\ files w' = files w.
Proof.
  intros Hs. rewrite snapshot_eq. cbv zeta.
  rewrite bool_decide_eq_false_2 by exact Hs.
  eexists; split; [reflexivity|]. cbn. auto 10.
Qed.

Lemma drain_unbound cfg fuel loc w :
  "state" ∉ scope w ->
  let r := drain cfg fuel loc w in
  history (final r) = history w /\ scope (final r) = scope w /\
  instr (final r) = instr w /\ files (final r) = files w /\
  (forall fuel', fuel = S fuel' -> size (cache (interfere w)) ≠ 0%nat ->
     exists w', r = Raise (NameError "state") w').
Proof.
  intros Hs. destruct fuel as [|fuel]; cbn zeta.
  - cbn. conjs; auto. discriminate.
  - cbn [drain]. unfold bind at 1. cbn [MetricCache_bool].
    change (cache (interfere w)) with (disturbed w).
    destruct (size (disturbed w)) as [|n] eqn:En; cbn; rewrite ?En; cbn.
    + conjs; auto. intros ? _ Hne. by destruct Hne.
    + unfold optimalWriteOrder, bind.
      destruct (snapshot_unbound cfg (interfere w)) as (w' & -> & ? & ? & ? & ? & ?);
        [exact Hs|].
      cbn. conjs; eauto.
Qed.

Lemma writeForever_unbound cfg inner fuel w :
  "state" ∉ scope w ->
  same_deeds w (final (writeForever cfg inner fuel w)).
Proof.
  revert w. induction fuel as [|fuel IH]; intros w Hs.
  - cbn. done.
  - cbn [writeForever]. unfold bind at 1. cbn [reactor_running].
    destruct (hd false (running w)); [|done].
    set (w1 := set_running _ w).
    destruct (drain_unbound cfg inner
                {| updates := 0; lastSecond := 0; dataWritten := false |}
                w1 Hs) as (Hh & Hsc & _).
    unfold bind at 1, try_except, writeCachedDataPoints.
    assert (Hnext : forall w2, history w2 = history w -> scope w2 = scope w ->
              same_deeds w (final (bind (time_sleep TICKS)
                              (fun _ => writeForever cfg inner fuel) w2))).
    { intros w2 Hh2 Hsc2. unfold bind. cbn [time_sleep].
      match goal with |- context [writeForever cfg inner fuel ?x] =>
        destruct (IH x) as (E1 & E2 & E3) end.
      - cbn. rewrite Hsc2. exact Hs.
      - unfold same_deeds. rewrite E1, E2, E3. unfold yields. cbn.
        rewrite Hh2. done. }
    destruct (drain cfg inner _ w1) as [[] w2|e w2|w2]; cbn in Hh, Hsc;
      unfold log_write; cbv beta iota.
    + apply Hnext; assumption.
    + apply (Hnext (set_log (Err e :: log w2) w2)); assumption.
    + unfold same_deeds. cbn. rewrite Hh. done.
Qed.

(** C1.  The module binds every name of its imports, assignments and
    definitions, and [state] is not one of them, nor a builtin.  So in a
    world whose global scope is the module's, whatever the cache holds,
    iterating [optimalWriteOrder] raises [NameError] at
    [state.cacheTooFull], before the loop that yields: the consumer's
    body never runs, nothing is popped from the cache and nothing is
    created or written.  [writeCachedDataPoints] therefore raises on a
    cache that is not empty, and however long [writeForever] runs no
    unit is delivered. *)
Theorem C1_state_is_unbound cfg (w : World) :
  scope w = module_scope ->
  ("state" ∉ module_scope) /\
  (forall S (yield_ : write_unit -> S -> M S) (s : S),
     exists w', optimalWriteOrder cfg yield_ s w = Raise (NameError "state") w'
       /\ history w' = history w /\ cache w' = cache (interfere w)
       /\ instr w' = instr w) /\
  (forall fuel, size (cache (interfere w)) ≠ 0%nat ->
     exists w', writeCachedDataPoints cfg (S fuel) w
                = Raise (NameError "state") w'
       /\ history w' = history w /\ instr w' = instr w) /\
  (forall inner fuel,
     same_deeds w (final (writeForever cfg inner fuel w))).
Proof.
  intros Hscope.
  assert (Hs : "state" ∉ scope w)
    by (rewrite Hscope; apply state_not_in_module_scope).
  split; [apply state_not_in_module_scope|]. split; [|split].
  - intros S yield_ s. unfold optimalWriteOrder, bind.
    destruct (snapshot_unbound cfg w Hs) as (w' & -> & ? & ? & ? & _).
    eauto.
  - intros fuel Hne. unfold writeCachedDataPoints.
    destruct (drain_unbound cfg (S fuel)
                {| updates := 0; lastSecond := 0; dataWritten := false |}
                w Hs) as (Hh & _ & Hi & _ & Hr).
    destruct (Hr fuel eq_refl Hne) as [w' Hw']. rewrite Hw' in Hh, Hi.
    eauto.
  - intros inner fuel. apply writeForever_unbound, Hs.
Qed.

Lemma C1_witness :
  let w := loaded module_scope [default_schema] {[ "c" := points 2 ]} ∅
             (1030 * TICKS) in
  exists w', writeCachedDataPoints (ex_cfg 3 500) 1 w
             = Raise (NameError "state") w' /\ history w' = history w.
Proof.
  cbn zeta.
  destruct (C1_state_is_unbound (ex_cfg 3 500)
              (loaded module_scope [default_schema] {[ "c" := points 2 ]} ∅
                 (1030 * TICKS)) eq_refl) as (_ & _ & H & _).
  destruct (H 0%nat) as (w' & Hw' & Hh & _).
  - vm_compute. discriminate.
  - exists w'. split; assumption.
Defined.

(** ** C6: a metric the throttle denies *)

(** The world after [MetricCache.pop(metric)], whether the metric was
    there or not. *)
Lemma MetricCache_pop_world metric w :
  exists r w', MetricCache_pop metric w = Ok r w'
    /\ r = cache (interfere w) !! metric
    /\ cache w' = delete metric (cache (interfere w))
    /\ history w' = history w /\ log w' = log w /\ instr w' = instr w
    /\ files w' = files w /\ now w' = now w
    /\ createCount w' = createCount w
    /\ lastCreateInterval w' = lastCreateInterval w.
Proof.
  unfold MetricCache_pop. cbn zeta.
  destruct (cache (interfere w) !! metric) as [dps|] eqn:E.
  - eexists _, _. split; [reflexivity|]. cbn. auto 10.
  - eexists _, _. split; [reflexivity|]. cbn.
    split; [done|]. split; [|auto 10].
    symmetry. apply delete_id. exact E.
Qed.

Lemma visit_denied {S} cfg (yield_ : write_unit -> S -> M S) metric n s w w1 :
  getFilesystemPath cfg metric ∉ files w ->
  creation_throttle cfg w = Ok false w1 ->
  exists w2, visit cfg yield_ (metric, n) s w = Ok s w2
    /\ cache w2 = delete metric (cache (interfere w1))
    /\ history w2 = history w1 /\ log w2 = log w1 /\ instr w2 = instr w1
    /\ files w2 = files w1 /\ now w2 = now w1
    /\ createCount w2 = createCount w1
    /\ lastCreateInterval w2 = lastCreateInterval w1.
Proof.
  intros Hfile Hthr. unfold visit. cbn [fst].
  unfold bind at 1. cbn [os_path_exists].
  rewrite bool_decide_eq_false_2 by exact Hfile.
  unfold bind at 1. unfold bind at 1. rewrite Hthr.
  unfold bind at 1.
  destruct (MetricCache_pop_world metric w1) as (r & w2 & -> & _ & H).
  cbn. exists w2. split; [reflexivity|exact H].
Qed.

(** C6 (as the code has it).  A metric has no file, the throttle's
    window has not expired and its count is already at the maximum (or
    beyond).  The turn of the loop for that metric yields nothing: the
    backlog is popped and dropped, [whisper.create] is not called, the
    counters are unchanged, the count of the window goes up by one, and
    nothing is written to the log. *)
Theorem C6_denied_metric_dropped {S} cfg (yield_ : write_unit -> S -> M S)
    metric n s w :
  getFilesystemPath cfg metric ∉ files w ->
  now w + next_tick w - lastCreateInterval w < 60 * TICKS ->
  MAX_CREATES_PER_MINUTE cfg <= createCount w ->
  exists w', visit cfg yield_ (metric, n) s w = Ok s w'
    /\ cache w' !! metric = None
    /\ history w' = history w
    /\ instr w' = instr w
    /\ log w' = log w
    /\ createCount w' = createCount w + 1
    /\ lastCreateInterval w' = lastCreateInterval w.
Proof.
  intros Hfile Hwin Hmax.
  pose proof (creation_throttle_cases cfg w) as Heq. cbn zeta in Heq.
  assert ((60 * TICKS <=? now w + next_tick w - lastCreateInterval w) = false)
    as E1 by lia.
  assert ((createCount w + 1 <? MAX_CREATES_PER_MINUTE cfg) = false)
    as E2 by lia.
  rewrite E1, E2 in Heq.
  destruct (visit_denied cfg yield_ metric n s w _ Hfile Heq)
    as (w' & Hv & Hc & Hh & Hl & Hi & Hf & Hn & Hcc & Hlc).
  exists w'. split; [exact Hv|]. cbn in *.
  rewrite Hc, Hh, Hl, Hi, Hcc, Hlc. conjs; auto.
  apply lookup_delete_eq.
Qed.

Lemma C6_witness :
  exists w', visit (ex_cfg 2 500) (write_body (ex_cfg 2 500)) ("c", 2%nat)
               {| updates := 0; lastSecond := 0; dataWritten := false |}
               ex_saturated
             = Ok {| updates := 0; lastSecond := 0; dataWritten := false |} w'
    /\ cache w' !! "c" = None
    /\ history w' = history ex_saturated
    /\ instr w' = instr ex_saturated
    /\ log w' = log ex_saturated
    /\ createCount w' = createCount ex_saturated + 1
    /\ lastCreateInterval w' = lastCreateInterval ex_saturated.
Proof.
  apply (C6_denied_metric_dropped (ex_cfg 2 500)).
  - apply (bool_decide_unpack _). vm_compute. exact I.
  - vm_compute. reflexivity.
  - vm_compute. discriminate.
Defined.

(** C6, the claim as it is worded: metric [c] has no file and the
    window's count is at the maximum of 2.  The pass drops the backlog of
    [c], calls no creation and counts no error, but the only line it logs
    is the one about sorting the queues: the drop is not logged. *)
Lemma C6_counterexample :
  let cfg := ex_cfg 2 500 in
  let w := ex_saturated in
  let loc := {| updates := 0; lastSecond := 0; dataWritten := false |} in
  (getFilesystemPath cfg "c" ∉ files w) /\
  createCount w = MAX_CREATES_PER_MINUTE cfg /\
  now w - lastCreateInterval w < 60 * TICKS /\
  log w = [] /\
  exists w', optimalWriteOrder cfg (write_body cfg) loc w = Ok loc w'
    /\ cache w' = ∅ /\ history w' = [] /\ errors (instr w') = 0
    /\ log w' = [Msg_sorted 1 0].
Proof.
  cbn zeta. conjs.
  - apply (bool_decide_unpack _). vm_compute. exact I.
  - reflexivity.
  - vm_compute. reflexivity.
  - reflexivity.
  - eexists. split; [vm_compute; reflexivity|]. conjs; reflexivity.
Qed.

(** ** The turns of the loop *)

Lemma visit_yields {S} cfg (yield_ : write_unit -> S -> M S)
    metric n s w w1 dps :
  let path := getFilesystemPath cfg metric in
  let b := bool_decide (path ∈ files w) in
  (if b then w1 = w else creation_throttle cfg w = Ok true w1) ->
  cache (interfere w1) !! metric = Some dps ->
  visit cfg yield_ (metric, n) s w =
    yield_ {| u_metric := metric; u_datapoints := dps;
              u_dbFilePath := path; u_dbFileExists := b |} s
      (at_yield metric dps path b w1).
Proof.
  intros path b Hgo Hpop. unfold visit. cbn [fst].
  unfold bind at 1. cbn [os_path_exists]. fold path b.
  unfold bind at 1.
  assert ((if b then ret true
           else bind (creation_throttle cfg)
                  (fun allowed : bool =>
                     if allowed then ret true
                     else bind (MetricCache_pop metric) (fun _ => ret false)))
            w = Ok true w1) as ->.
  { destruct b; [subst w1; reflexivity|].
    unfold bind. rewrite Hgo. reflexivity. }
  unfold bind at 1. unfold MetricCache_pop. cbn zeta. rewrite Hpop.
  reflexivity.
Qed.

Lemma for_each_cons_ok {A S} (x : A) (rest : list A) (body : A -> S -> M S)
    s w s' w' :
  body x s w = Ok s' w' ->
  for_each (x :: rest) body s w = for_each rest body s' w'.
Proof. intros H. cbn [for_each]. unfold bind. rewrite H. reflexivity. Qed.

Lemma for_each_cons_raise {A S} (x : A) (rest : list A)
    (body : A -> S -> M S) s w e w' :
  body x s w = Raise e w' ->
  for_each (x :: rest) body s w = Raise e w'.
Proof. intros H. cbn [for_each]. unfold bind. rewrite H. reflexivity. Qed.

Lemma write_body_no_schema cfg u loc w :
  u_dbFileExists u = false ->
  find (fun schema => schema_matches schema (u_metric u)) (schemas w) = None ->
  write_body cfg u loc w = Raise (NoSchemaMatched (u_metric u)) w.
Proof.
  intros Hex Hfind. unfold write_body, ensure_file. rewrite Hex.
  unfold bind at 1. unfold create_file, bind, read_schemas.
  rewrite Hfind. reflexivity.
Qed.

Lemma write_body_failure cfg u loc w w1 :
  ensure_file u w = Ok tt w1 ->
  hd true (update_io w1) = false ->
  write_body cfg u loc w =
    Ok {| updates := updates loc; lastSecond := lastSecond loc;
          dataWritten := true |}
       (after_failure (u_dbFilePath u) (u_datapoints u) w1).
Proof.
  intros Hfile Hio. unfold write_body.
  unfold bind at 1. rewrite Hfile.
  unfold commit, bind. cbn. rewrite Hio. reflexivity.
Qed.

Lemma write_body_success cfg u loc w w1 :
  ensure_file u w = Ok tt w1 ->
  hd true (update_io w1) = true ->
  exists t2 w3,
    write_body cfg u loc w =
      rate_limit cfg t2
        {| updates := updates loc; lastSecond := lastSecond loc;
           dataWritten := true |} w3
    /\ now w3 = t2
    /\ history w3
       = Committed (u_dbFilePath u) (u_datapoints u) t2 :: history w1
    /\ now w1 <= t2.
Proof.
  intros Hfile Hio. unfold write_body.
  unfold bind at 1. rewrite Hfile.
  unfold commit, bind. cbn -[rate_limit]. rewrite Hio.
  destruct (LOG_UPDATES cfg); cbn -[rate_limit].
  - eexists _, _. split; [reflexivity|]. cbn. conjs; try reflexivity.
    unfold next_tick. cbn. lia.
  - eexists _, _. split; [reflexivity|]. cbn. conjs; try reflexivity.
    unfold next_tick. cbn. lia.
Qed.

Lemma drain_raises cfg fuel loc w e w' :
  size (cache (interfere w)) ≠ 0%nat ->
  optimalWriteOrder cfg (write_body cfg)
    {| updates := updates loc; lastSecond := lastSecond loc;
       dataWritten := false |} (interfere w) = Raise e w' ->
  drain cfg (S fuel) loc w = Raise e w'.
Proof.
  intros Hne Hpass. cbn [drain]. unfold bind at 1.
  unfold MetricCache_bool. cbn zeta.
  destruct (size (cache (interfere w))); [done|]. cbn [Nat.eqb negb].
  unfold bind at 1. rewrite Hpass. reflexivity.
Qed.

Lemma writeForever_catches cfg inner fuel w e w' :
  hd false (running w) = true ->
  writeCachedDataPoints cfg inner (set_running (tl (running w)) w)
    = Raise e w' ->
  writeForever cfg inner (S fuel) w
    = writeForever cfg inner fuel (after_catch e w').
Proof.
  intros Hrun Hraise. cbn [writeForever]. unfold bind at 1.
  cbn [reactor_running]. rewrite Hrun.
  unfold bind at 1, try_except. rewrite Hraise.
  reflexivity.
Qed.

(** ** A run that meets a metric without a schema *)

(** The whole of it on an example: the reactor runs for one turn, metric
    [d] matches no schema.  [writeForever] returns normally; it has
    logged the error and slept its second, nothing was created or
    committed, and the backlog of [d] is gone. *)
Example writeForever_survives_no_schema :
  exists w', writeForever (ex_cfg 3 500) 3 2 ex_no_schema = Ok tt w'
    /\ log w' = [Err (NoSchemaMatched "d"); Msg_sorted 1 0]
    /\ history w' = [Slept TICKS;
                     Yielded "d" (points 2) (ex_path "d") false]
    /\ cache w' = ∅.
Proof.
  eexists. split; [vm_compute; reflexivity|]. conjs; reflexivity.
Qed.

(** ** C8 and C10: an update that fails *)

(** C8.  [whisper.update_many] raises for a unit.  The body logs the
    error and counts it once; the points committed and the update times
    are not touched; the batch, popped before the [yield], is not put
    back in the cache and the update is not called again; the body
    returns, so the loop goes on with the next metric of the
    snapshot. *)
Theorem C8_failed_update_is_counted_and_dropped cfg u loc w w1 :
  ensure_file u w = Ok tt w1 ->
  hd true (update_io w1) = false ->
  let loc' := {| updates := updates loc; lastSecond := lastSecond loc;
                 dataWritten := true |} in
  exists w2,
    write_body cfg u loc w = Ok loc' w2
    /\ log w2 = Err (StorageError (u_dbFilePath u)) :: log w1
    /\ errors (instr w2) = errors (instr w1) + 1
    /\ committedPoints (instr w2) = committedPoints (instr w1)
    /\ updateTimes (instr w2) = updateTimes (instr w1)
    /\ creates (instr w2) = creates (instr w1)
    /\ cache w2 = cache w1
    /\ update_io w2 = tl (update_io w1)
    /\ history w2
       = UpdateFailed (u_dbFilePath u) (u_datapoints u) :: history w1
    /\ (forall item rest s0 w0,
          visit cfg (write_body cfg) item s0 w0 = write_body cfg u loc w ->
          for_each (item :: rest) (visit cfg (write_body cfg)) s0 w0
          = for_each rest (visit cfg (write_body cfg)) loc' w2).
Proof.
  intros Hfile Hio loc'.
  exists (after_failure (u_dbFilePath u) (u_datapoints u) w1).
  pose proof (write_body_failure cfg u loc w w1 Hfile Hio) as Hbody.
  split; [exact Hbody|]. conjs; try reflexivity.
  intros item rest s0 w0 Hvisit. apply for_each_cons_ok.
  rewrite Hvisit. exact Hbody.
Qed.

Lemma C8_witness :
  let cfg := ex_cfg 3 500 in
  let u := {| u_metric := "e"; u_datapoints := points 3;
              u_dbFilePath := ex_path "e"; u_dbFileExists := true |} in
  let loc := {| updates := 0; lastSecond := 0; dataWritten := false |} in
  exists w2,
    write_body cfg u loc ex_io_error
      = Ok {| updates := 0; lastSecond := 0; dataWritten := true |} w2
    /\ errors (instr w2) = 1 /\ committedPoints (instr w2) = 0
    /\ log w2 = [Err (StorageError (ex_path "e"))].
Proof.
  cbn zeta.
  destruct (C8_failed_update_is_counted_and_dropped (ex_cfg 3 500)
              {| u_metric := "e"; u_datapoints := points 3;
                 u_dbFilePath := ex_path "e"; u_dbFileExists := true |}
              {| updates := 0; lastSecond := 0; dataWritten := false |}
              ex_io_error ex_io_error eq_refl eq_refl)
    as (w2 & H1 & H2 & H3 & H4 & _).
  exists w2. conjs; assumption.
Defined.

(** C10.  The state of the rate limiter, the locals [updates] and
    [lastSecond], is touched by the limiter's code only, and that runs
    after a commit that succeeded.  When [whisper.update_many] raises,
    both locals keep their values, nothing sleeps, and the only time that
    passes is what the clock reading before the update took. *)
Theorem C10_failed_update_leaves_limiter cfg u loc w w1 :
  ensure_file u w = Ok tt w1 ->
  let loc1 := {| updates := updates loc; lastSecond := lastSecond loc;
                 dataWritten := true |} in
  (hd true (update_io w1) = false ->
   exists loc' w2,
     write_body cfg u loc w = Ok loc' w2
     /\ updates loc' = updates loc
     /\ lastSecond loc' = lastSecond loc
     /\ sleeps (history w2) = sleeps (history w1)
     /\ now w2 = now w1 + next_tick w1)
  /\ (hd true (update_io w1) = true ->
      exists t2 w3,
        write_body cfg u loc w = rate_limit cfg t2 loc1 w3
        /\ history w3
           = Committed (u_dbFilePath u) (u_datapoints u) t2 :: history w1).
Proof.
  intros Hfile loc1. split; intros Hio.
  - exists loc1, (after_failure (u_dbFilePath u) (u_datapoints u) w1).
    split; [apply write_body_failure; assumption|].
    conjs; reflexivity.
  - destruct (write_body_success cfg u loc w w1 Hfile Hio)
      as (t2 & w3 & H1 & _ & H2 & _).
    exists t2, w3. split; assumption.
Qed.

Lemma C10_witness :
  let cfg := ex_cfg 3 500 in
  let u := {| u_metric := "e"; u_datapoints := points 3;
              u_dbFilePath := ex_path "e"; u_dbFileExists := true |} in
  let loc := {| updates := 7; lastSecond := 1000; dataWritten := false |} in
  exists loc' w2,
    write_body cfg u loc ex_io_error = Ok loc' w2
    /\ updates loc' = 7 /\ lastSecond loc' = 1000
    /\ sleeps (history w2) = [].
Proof.
  cbn zeta.
  destruct (C10_failed_update_leaves_limiter (ex_cfg 3 500)
              {| u_metric := "e"; u_datapoints := points 3;
                 u_dbFilePath := ex_path "e"; u_dbFileExists := true |}
              {| updates := 7; lastSecond := 1000; dataWritten := false |}
              ex_io_error ex_io_error eq_refl) as (H & _).
  destruct (H eq_refl) as (loc' & w2 & H1 & H2 & H3 & H4 & _).
  exists loc', w2. conjs; assumption.
Defined.

(** ** What a piece of code leaves as it is *)

#[local] Instance keeps_preorder {T} (f : World -> T) : PreOrder (keeps f).
Proof.
  split; [intros w; reflexivity|].
  intros w1 w2 w3 H1 H2. unfold keeps in *. congruence.
Qed.

#[local] Instance forward_preorder : PreOrder forward.
Proof. split; unfold forward; [intros w|intros w1 w2 w3 ? ?]; lia. Qed.

#[local] Instance both_preorder R1 R2 :
  PreOrder R1 -> PreOrder R2 -> PreOrder (both R1 R2).
Proof.
  intros P1 P2. split.
  - intros w. split; reflexivity.
  - intros w1 w2 w3 [? ?] [? ?]. split; etransitivity; eassumption.
Qed.

Section Steady.

Context (R : World -> World -> Prop) `{!PreOrder R}.

Lemma steady_ret {A} (a : A) : steady R (ret a).
Proof. intros w. reflexivity. Qed.

Lemma steady_raise {A} e : steady R (@raise A e).
Proof. intros w. reflexivity. Qed.

Lemma steady_bind {A B} (m : M A) (k : A -> M B) :
  steady R m -> (forall a, steady R (k a)) -> steady R (bind m k).
Proof.
  intros Hm Hk w. unfold bind. specialize (Hm w).
  destruct (m w) as [a w'| |]; cbn in *; try assumption.
  etransitivity; [exact Hm|apply Hk].
Qed.

Lemma steady_when c m : steady R m -> steady R (when c m).
Proof. intros Hm. destruct c; [exact Hm|apply steady_ret]. Qed.

Lemma steady_for_each {A S} (l : list A) (body : A -> S -> M S) s :
  (forall x s, steady R (body x s)) -> steady R (for_each l body s).
Proof.
  intros Hb. revert s. induction l as [|x l IH]; intros s; cbn [for_each].
  - apply steady_ret.
  - apply steady_bind; [apply Hb|exact IH].
Qed.

Lemma steady_try_except {A} (m : M A) handler :
  steady R m -> (forall e, steady R (handler e)) ->
  steady R (try_except m handler).
Proof.
  intros Hm Hh w. unfold try_except. specialize (Hm w).
  destruct (m w) as [a w'|e w'|w']; cbn in *; try assumption.
  etransitivity; [exact Hm|apply Hh].
Qed.

End Steady.

Lemma steady_both {A} R1 R2 (m : M A) :
  steady R1 m -> steady R2 m -> steady (both R1 R2) m.
Proof. intros H1 H2 w. split; [apply H1|apply H2]. Qed.

(** The amount the limiter sleeps is positive. *)
Lemma sleep_to_next_second t2 : 0 < py_int (t2 + TICKS) * TICKS - t2.
Proof. unfold py_int, TICKS. Z.to_euclidean_division_equations; lia. Qed.

(** Takes a goal [steady R m] apart along the structure of [m]; what is
    left are the calls of the collaborators, each a single step. *)
Ltac steady_step :=
  match goal with
  | |- steady ?R (bind ?m ?k) => refine (steady_bind R m k _ _); [|intros ?]
  | |- steady ?R (ret ?a) => refine (steady_ret R a)
  | |- steady ?R (raise ?e) => refine (steady_raise R e)
  | |- steady ?R (when ?c ?m) => refine (steady_when R c m _)
  | |- steady ?R (for_each ?l ?body ?s) =>
      refine (steady_for_each R l body s _); intros ? ?
  | |- steady ?R (try_except ?m ?h) =>
      refine (steady_try_except R m h _ _); [|intros ?]
  | |- steady _ (if ?c then _ else _) => destruct c
  | |- steady _ (match ?x with _ => _ end) => destruct x
  | |- steady _ (let _ := _ in _) => cbv zeta
  end.

Ltac steady_prim :=
  intros ?w; unfold keeps, forward, both; cbn;
  first [ reflexivity | lia | (unfold next_tick; lia) ].

Ltac steady_go := repeat steady_step; try steady_prim.

Lemma commit_keeps_yields cfg u loc :
  steady (keeps (fun w => yields (history w))) (commit cfg u loc).
Proof.
  unfold commit, rate_limit. steady_go.
Qed.

Lemma ensure_file_keeps_yields u :
  steady (keeps (fun w => yields (history w))) (ensure_file u).
Proof.
  unfold ensure_file, create_file, createMetaFile. steady_go.
  - intros w. unfold keeps, whisper_create. cbn.
    destruct (hd true (create_io w)); reflexivity.
Qed.

(** ** The turns of the generator, case by case *)

Lemma popped_cache metric w :
  cache (popped metric w) = delete metric (cache (interfere w)).
Proof.
  unfold popped, MetricCache_pop. cbv zeta.
  destruct (cache (interfere w) !! metric) eqn:E; cbn; [reflexivity|].
  symmetry. apply delete_id. exact E.
Qed.

Lemma popped_rest metric w :
  history (popped metric w) = history w /\ log (popped metric w) = log w
  /\ instr (popped metric w) = instr w /\ files (popped metric w) = files w
  /\ now (popped metric w) = now w
  /\ createCount (popped metric w) = createCount w
  /\ lastCreateInterval (popped metric w) = lastCreateInterval w
  /\ scope (popped metric w) = scope w
  /\ schemas (popped metric w) = schemas w
  /\ create_io (popped metric w) = create_io w
  /\ producers (popped metric w) = tl (producers w).
Proof.
  unfold popped, MetricCache_pop. cbv zeta.
  destruct (cache (interfere w) !! metric); cbn; auto 12.
Qed.

Lemma visit_cases {S} cfg (yield_ : write_unit -> S -> M S) metric n s w :
  let path := getFilesystemPath cfg metric in
  let b := bool_decide (path ∈ files w) in
  exists allowed wt,
    creation_throttle cfg w = Ok allowed wt /\
    let w1 := if b then w else wt in
    visit cfg yield_ (metric, n) s w =
      if b || allowed then
        match cache (interfere w1) !! metric with
        | Some dps =>
            yield_ {| u_metric := metric; u_datapoints := dps;
                      u_dbFilePath := path; u_dbFileExists := b |} s
              (at_yield metric dps path b w1)
        | None => Ok s (contention metric w1)
        end
      else Ok s (popped metric wt).
Proof.
  intros path b.
  destruct (creation_throttle cfg w) as [allowed wt| |] eqn:Hthr;
    try (rewrite creation_throttle_eq in Hthr; discriminate).
  exists allowed, wt. split; [reflexivity|]. cbv zeta.
  destruct b eqn:Hb.
  - cbn [orb].
    destruct (cache (interfere w) !! metric) as [dps|] eqn:Hpop.
    + rewrite (visit_yields cfg yield_ metric n s w w dps); fold path b;
        rewrite ?Hb; auto.
    + unfold visit. cbn [fst]. unfold bind at 1. cbn [os_path_exists].
      fold path b. rewrite Hb. unfold bind at 1. cbn [ret].
      unfold bind at 1. unfold MetricCache_pop. cbv zeta. rewrite Hpop.
      reflexivity.
  - cbn [orb]. destruct allowed.
    + destruct (cache (interfere wt) !! metric) as [dps|] eqn:Hpop.
      * rewrite (visit_yields cfg yield_ metric n s w wt dps); fold path b;
          rewrite ?Hb; auto.
      * unfold visit. cbn [fst]. unfold bind at 1. cbn [os_path_exists].
        fold path b. rewrite Hb. unfold bind at 1. unfold bind at 1.
        rewrite Hthr. cbn [ret].
        unfold bind at 1. unfold MetricCache_pop. cbv zeta. rewrite Hpop.
        reflexivity.
    + unfold visit. cbn [fst]. unfold bind at 1. cbn [os_path_exists].
      fold path b. rewrite Hb. unfold bind at 1. unfold bind at 1.
      rewrite Hthr. unfold bind at 1. unfold popped.
      destruct (MetricCache_pop metric wt) as [r w2| |] eqn:E;
        try (unfold MetricCache_pop in E; cbv zeta in E;
             destruct (cache (interfere wt) !! metric); discriminate).
      reflexivity.
Qed.

(** ** C7: no schema matches a new metric *)

#[local] Instance grows_preorder sch : PreOrder (grows sch).
Proof.
  split.
  - intros w. split; [reflexivity|]. exists []. split; [reflexivity|].
    constructor.
  - intros w1 w2 w3 [S1 (l1 & H1 & F1)] [S2 (l2 & H2 & F2)].
    split; [congruence|]. exists (l2 ++ l1). split.
    + rewrite H2, H1. apply app_assoc.
    + apply Forall_app. split; assumption.
Qed.

Lemma sound_steady {A} sch (m : M A) w :
  grows sch w (final (m w)) -> sound sch w (m w).
Proof. unfold sound. destruct (m w); cbn; auto. Qed.

Lemma sound_trans {A} sch w w1 (r : Result A) :
  grows sch w w1 -> sound sch w1 r -> sound sch w r.
Proof.
  intros Hg. destruct r as [a w'|e w'|w']; cbn.
  - intros H. etransitivity; eassumption.
  - intros [H|(metric & dps & path & w2 & Hg2 & He & Hf & Hh)].
    + left. etransitivity; eassumption.
    + right. exists metric, dps, path, w2.
      split; [etransitivity; eassumption|]. auto.
  - intros H. etransitivity; eassumption.
Qed.

Lemma sound_bind {A B} sch (m : M A) (k : A -> M B) w :
  sound sch w (m w) ->
  (forall a w1, m w = Ok a w1 -> sound sch w1 (k a w1)) ->
  sound sch w (bind m k w).
Proof.
  intros Hm Hk. unfold bind.
  destruct (m w) as [a w1|e w1|w1] eqn:E; cbn in Hm |- *; try exact Hm.
  eapply sound_trans; [exact Hm|]. apply Hk. reflexivity.
Qed.

(** A step that adds no [yield] to the history. *)
Ltac grows_prim :=
  intros ?w; unfold grows; cbn; split; [reflexivity|];
  first [ exists []; split; [reflexivity|constructor]
        | eexists [_]; split; [reflexivity|];
          constructor; [exact I|constructor] ].

Lemma whisper_create_grows sch path archiveConfig :
  steady (grows sch) (whisper_create path archiveConfig).
Proof.
  intros w. unfold whisper_create. cbv zeta.
  change (create_io (tick w)) with (create_io w).
  destruct (hd true (create_io w)); unfold grows; cbn;
    (split; [reflexivity|]); eexists [_]; (split; [reflexivity|]);
    (constructor; [exact I|constructor]).
Qed.

Lemma ensure_file_grows sch u : steady (grows sch) (ensure_file u).
Proof.
  unfold ensure_file, create_file, createMetaFile.
  repeat steady_step; try apply whisper_create_grows; grows_prim.
Qed.

Lemma commit_grows sch cfg u loc : steady (grows sch) (commit cfg u loc).
Proof.
  unfold commit, rate_limit. repeat steady_step; grows_prim.
Qed.

Lemma write_body_grows sch cfg u loc :
  steady (grows sch) (write_body cfg u loc).
Proof.
  unfold write_body. cbv zeta.
  refine (steady_bind _ _ _ _ _);
    [apply ensure_file_grows|intros _; apply commit_grows].
Qed.

Lemma snapshot_grows sch cfg : steady (grows sch) (snapshot cfg).
Proof.
  intros w. rewrite snapshot_eq. cbv zeta.
  destruct (bool_decide _); [destruct (cacheTooFull w && _)|];
    unfold grows; cbn; (split; [reflexivity|]);
    first [ exists []; split; [reflexivity|constructor]
          | eexists [_]; split; [reflexivity|];
            constructor; [exact I|constructor] ].
Qed.

(** A turn of the loop: it raises at the [yield] of a new metric without
    a schema, and otherwise every unit it yields is served. *)
Lemma visit_sound cfg metric n loc w :
  sound (schemas w) w (visit cfg (write_body cfg) (metric, n) loc w).
Proof.
  destruct (visit_cases cfg (write_body cfg) metric n loc w)
    as (allowed & wt & Hthr & ->).
  assert (Hwt : grows (schemas w) w wt /\ history wt = history w).
  { rewrite creation_throttle_eq in Hthr. cbv zeta in Hthr.
    injection Hthr as _ <-. split; [|reflexivity].
    split; [reflexivity|]. exists []. split; [reflexivity|constructor]. }
  destruct Hwt as [Hgt Hht].
  set (b := bool_decide _). clearbody b.
  set (w1 := if b then w else wt).
  assert (Hg1 : grows (schemas w) w w1)
    by (unfold w1; destruct b; [reflexivity|exact Hgt]).
  destruct (b || allowed).
  - destruct (cache (interfere w1) !! metric) as [dps|].
    + set (wy := at_yield metric dps (getFilesystemPath cfg metric) b w1).
      assert (Hy : schemas wy = schemas w1
                   /\ history wy
                      = Yielded metric dps (getFilesystemPath cfg metric) b
                          :: history w1) by (split; reflexivity).
      destruct Hy as [Hsy Hhy]. destruct Hg1 as [Hs1 Hl1].
      destruct (find (fun s => schema_matches s metric) (schemas w))
        as [schema|] eqn:Hfind.
      * apply (sound_trans _ _ wy);
          [|apply sound_steady, write_body_grows].
        split; [congruence|]. destruct Hl1 as (l & Hl & HF).
        exists (Yielded metric dps (getFilesystemPath cfg metric) b :: l).
        split; [rewrite Hhy, Hl; reflexivity|].
        constructor; [|exact HF]. cbn. destruct b; [exact I|].
        rewrite Hfind. discriminate.
      * destruct b.
        -- apply (sound_trans _ _ wy);
             [|apply sound_steady, write_body_grows].
           split; [congruence|]. destruct Hl1 as (l & Hl & HF).
           exists (Yielded metric dps (getFilesystemPath cfg metric) true
                     :: l).
           split; [rewrite Hhy, Hl; reflexivity|].
           constructor; [exact I|exact HF].
        -- rewrite write_body_no_schema;
             [|reflexivity|cbn [u_metric]; rewrite Hsy, Hs1; exact Hfind].
           right. exists metric, dps, (getFilesystemPath cfg metric), w1.
           split; [split; [exact Hs1|exact Hl1]|]. auto.
    + cbn. etransitivity; [exact Hg1|]. unfold contention.
      split; [reflexivity|]. exists []. split; [reflexivity|constructor].
  - cbn. etransitivity; [exact Hgt|].
    destruct (popped_rest metric wt)
      as (Hh & _ & _ & _ & _ & _ & _ & _ & Hs & _).
    split; [exact Hs|]. exists []. split; [exact Hh|constructor].
Qed.

Lemma sound_schemas {A} sch w (r : Result A) a w' :
  sound sch w r -> r = Ok a w' -> schemas w' = schemas w.
Proof. intros H ->. destruct H as [H _]. exact H. Qed.

Lemma loop_sound cfg metrics :
  forall loc w,
  sound (schemas w) w (for_each metrics (visit cfg (write_body cfg)) loc w).
Proof.
  induction metrics as [|[metric n] metrics IH]; intros loc w.
  - cbn. reflexivity.
  - cbn [for_each]. apply sound_bind; [apply visit_sound|].
    intros loc1 w1 E.
    rewrite <- (sound_schemas _ _ _ _ _ (visit_sound cfg metric n loc w) E).
    apply IH.
Qed.

Lemma pass_sound cfg loc w :
  sound (schemas w) w (optimalWriteOrder cfg (write_body cfg) loc w).
Proof.
  unfold optimalWriteOrder. apply sound_bind.
  - apply sound_steady, snapshot_grows.
  - intros metrics w1 E.
    pose proof (snapshot_grows (schemas w) cfg w) as [Hs _].
    rewrite E in Hs. cbn [final] in Hs. rewrite <- Hs. apply loop_sound.
Qed.

Lemma drain_sound cfg fuel :
  forall loc w, sound (schemas w) w (drain cfg fuel loc w).
Proof.
  induction fuel as [|fuel IH]; intros loc w; [cbn; reflexivity|].
  change (drain cfg (S fuel) loc)
    with (bind MetricCache_bool (fun nonempty : bool =>
            if nonempty then
              bind (optimalWriteOrder cfg (write_body cfg)
                      {| updates := updates loc;
                         lastSecond := lastSecond loc;
                         dataWritten := false |})
                (fun loc' =>
                   bind (when (negb (dataWritten loc'))
                           (time_sleep (TICKS / 10)))
                     (fun _ => drain cfg fuel loc'))
            else ret tt)).
  apply sound_bind.
  - apply sound_steady. unfold MetricCache_bool. cbn.
    split; [reflexivity|]. exists []. split; [reflexivity|constructor].
  - intros nonempty w1 E. injection E as _ <-.
    change (schemas w) with (schemas (interfere w)).
    destruct nonempty; [|cbn; reflexivity].
    apply sound_bind; [apply pass_sound|].
    intros loc1 w2 E2.
    rewrite <- (sound_schemas _ _ _ _ _
                  (pass_sound cfg _ (interfere w)) E2).
    apply sound_bind.
    + apply sound_steady. destruct (negb (dataWritten loc1)); cbn.
      * split; [reflexivity|]. eexists [_].
        split; [reflexivity|]. constructor; [exact I|constructor].
      * reflexivity.
    + intros [] w3 E3.
      assert (Hs3 : schemas w3 = schemas w2).
      { destruct (negb (dataWritten loc1)); cbn in E3;
          injection E3 as <-; reflexivity. }
      rewrite <- Hs3. apply IH.
Qed.

(** C7.  In a call of [writeCachedDataPoints], a unit is yielded for a
    metric that needs its file created, and no schema matches the
    metric's name.  Then the call raises, with the exception of line 108
    for that metric, and the [yield] is the last thing that happened in
    the call: no later metric of the snapshot was visited, nothing was
    created or committed after it.  [writeForever] catches the exception,
    logs it, sleeps one second and goes on with its loop. *)
Theorem C7_no_schema_aborts_pass cfg fuel w metric dps path l :
  let r := writeCachedDataPoints cfg fuel w in
  let e := NoSchemaMatched metric in
  history (final r) = l ++ history w ->
  Yielded metric dps path false ∈ l ->
  find (fun schema => schema_matches schema metric) (schemas w) = None ->
  exists w' h,
    r = Raise e w'
    /\ l = Yielded metric dps path false :: h
    /\ (forall n wf,
          hd false (running wf) = true ->
          set_running (tl (running wf)) wf = w ->
          writeForever cfg fuel (S n) wf
          = writeForever cfg fuel n (after_catch e w'))
    /\ log (after_catch e w') = Err e :: log w'
    /\ history (after_catch e w') = Slept TICKS :: history w'
    /\ now (after_catch e w') = now w' + TICKS.
Proof.
  intros r e Hl Hin Hfind.
  pose proof (drain_sound cfg fuel
                {| updates := 0; lastSecond := 0; dataWritten := false |} w)
    as Hsound.
  fold (writeCachedDataPoints cfg fuel) in Hsound. fold r in Hsound.
  assert (Hnot : forall w1, grows (schemas w) w w1 ->
                   history w1 = l ++ history w -> False).
  { intros w1 [_ (l1 & Hl1 & HF)] E. rewrite Hl1 in E.
    apply app_inv_tail in E. subst l1.
    rewrite Forall_forall in HF. specialize (HF _ Hin). cbn in HF.
    apply HF, Hfind. }
  destruct r as [[] w'|e' w'|w'] eqn:Er; cbn [sound final] in Hsound, Hl;
    try (exfalso; exact (Hnot w' Hsound Hl)).
  destruct Hsound as [Hg|(m & dps' & path' & w1 & Hg & He & Hf & Hh)];
    [exfalso; exact (Hnot w' Hg Hl)|].
  destruct Hg as [_ (l1 & Hl1 & HF)].
  rewrite Hh, Hl1 in Hl.
  change (Yielded m dps' path' false :: l1 ++ history w)
    with ((Yielded m dps' path' false :: l1) ++ history w) in Hl.
  apply app_inv_tail in Hl. subst l.
  apply elem_of_cons in Hin as [Hin|Hin].
  - injection Hin as <- <- <-. subst e'. exists w', l1.
    split; [reflexivity|]. split; [reflexivity|]. split; [|auto].
    intros n wf Hrun Hw. apply writeForever_catches; [exact Hrun|].
    rewrite Hw. exact Er.
  - exfalso. rewrite Forall_forall in HF. specialize (HF _ Hin). cbn in HF.
    apply HF, Hfind.
Qed.

Lemma C7_witness :
  let cfg := ex_cfg 3 500 in
  exists w',
    writeCachedDataPoints cfg 3 (set_running [false] ex_stuck)
    = Raise (NoSchemaMatched "d") w'
    /\ writeForever cfg 3 2 ex_stuck_forever
       = writeForever cfg 3 1 (after_catch (NoSchemaMatched "d") w').
Proof.
  cbv zeta.
  destruct (C7_no_schema_aborts_pass (ex_cfg 3 500) 3
              (set_running [false] ex_stuck) "d" (points 2) (ex_path "d")
              [Yielded "d" (points 2) (ex_path "d") false])
    as (w' & h & Hr & _ & Hf & _).
  - vm_compute. reflexivity.
  - apply list_elem_of_singleton. reflexivity.
  - reflexivity.
  - exists w'. split; [exact Hr|]. apply Hf; reflexivity.
Defined.

(** ** The order of a pass *)

Lemma insert_desc_perm x l : insert_desc x l ≡ₚ x :: l.
Proof.
  induction l as [|y l IH]; cbn [insert_desc]; [reflexivity|].
  destruct (x.2 <? y.2)%nat; [|reflexivity].
  rewrite IH. apply Permutation_swap.
Qed.

Lemma sort_desc_perm l : sort_desc l ≡ₚ l.
Proof.
  unfold sort_desc. induction l as [|x l IH]; cbn [foldr]; [reflexivity|].
  rewrite insert_desc_perm, IH. reflexivity.
Qed.

Lemma insert_desc_sorted x l :
  StronglySorted desc l -> StronglySorted desc (insert_desc x l).
Proof.
  induction 1 as [|y l Hl IH Hy]; cbn [insert_desc].
  - repeat constructor.
  - destruct (x.2 <? y.2)%nat eqn:E.
    + constructor; [exact IH|].
      rewrite insert_desc_perm. constructor; [|exact Hy].
      unfold desc. apply Nat.ltb_lt in E. lia.
    + apply Nat.ltb_ge in E. constructor; [constructor; assumption|].
      constructor; [exact E|].
      eapply Forall_impl; [exact Hy|]. unfold desc. intros z Hz. lia.
Qed.

Lemma sort_desc_sorted l : StronglySorted desc (sort_desc l).
Proof.
  unfold sort_desc. induction l as [|x l IH]; cbn [foldr]; [constructor|].
  apply insert_desc_sorted, IH.
Qed.

Lemma sorted_after l1 b l2 a :
  StronglySorted desc (l1 ++ b :: l2) -> a ∈ l2 -> (a.2 <= b.2)%nat.
Proof.
  intros Hs Ha. rewrite (cons_middle b l1 l2), app_assoc in Hs.
  apply (StronglySorted_app_1_elem_of desc _ _ b a Hs); [|exact Ha].
  apply elem_of_app. right. by left.
Qed.

Lemma counts_names c : (counts c).*1 = (map_to_list c).*1.
Proof.
  unfold counts. rewrite <- list_fmap_compose. reflexivity.
Qed.

Lemma counts_NoDup c : NoDup (counts c).*1.
Proof. rewrite counts_names. apply NoDup_fst_map_to_list. Qed.

Lemma NoDup_fst_functional {A B} (l : list (A * B)) x y1 y2 :
  NoDup l.*1 -> (x, y1) ∈ l -> (x, y2) ∈ l -> y1 = y2.
Proof.
  induction l as [|[a b] l IH]; cbn; intros Hnd H1 H2.
  - inversion H1.
  - apply NoDup_cons in Hnd as [Hnotin Hnd].
    apply elem_of_cons in H1 as [H1|H1]; apply elem_of_cons in H2 as [H2|H2].
    + congruence.
    + exfalso. apply Hnotin. injection H1 as <- <-.
      apply list_elem_of_fmap. exists (x, y2). split; [reflexivity|exact H2].
    + exfalso. apply Hnotin. injection H2 as <- <-.
      apply list_elem_of_fmap. exists (x, y1). split; [reflexivity|exact H1].
    + apply IH; assumption.
Qed.

(** In the sorted snapshot a metric with a larger backlog comes first. *)
Lemma sort_desc_larger_first snap A B l1 l2 :
  sort_desc snap = l1 ++ B :: l2 -> A ∈ snap -> (B.2 < A.2)%nat -> A ∈ l1.
Proof.
  intros Hsplit HA Hlt.
  assert (Hin : A ∈ l1 ++ B :: l2)
    by (rewrite <- Hsplit, sort_desc_perm; exact HA).
  apply elem_of_app in Hin as [Hin|Hin]; [exact Hin|].
  apply elem_of_cons in Hin as [->|Hin]; [lia|].
  pose proof (sort_desc_sorted snap) as Hs. rewrite Hsplit in Hs.
  pose proof (sorted_after l1 B l2 A Hs Hin). lia.
Qed.

Lemma write_body_keeps_yields cfg u loc :
  steady (keeps (fun w => yields (history w))) (write_body cfg u loc).
Proof.
  unfold write_body. cbv zeta.
  refine (steady_bind _ _ _ _ _).
  - apply ensure_file_keeps_yields.
  - intros _. apply commit_keeps_yields.
Qed.

Lemma creation_throttle_history cfg w allowed wt :
  creation_throttle cfg w = Ok allowed wt -> history wt = history w.
Proof.
  rewrite creation_throttle_eq. cbv zeta. intros H. injection H as _ <-.
  reflexivity.
Qed.

Lemma visit_yield_step cfg metric n loc w :
  let w' := final (visit cfg (write_body cfg) (metric, n) loc w) in
  yields (history w') = yields (history w)
  \/ yields (history w') = yields (history w) ++ [metric].
Proof.
  cbv zeta.
  destruct (visit_cases cfg (write_body cfg) metric n loc w)
    as (allowed & wt & Hthr & ->).
  apply creation_throttle_history in Hthr.
  set (b := bool_decide _).
  assert (Hw1 : history (if b then w else wt) = history w)
    by (destruct b; auto).
  destruct (b || allowed).
  - destruct (cache (interfere (if b then w else wt)) !! metric) as [dps|].
    + right. rewrite write_body_keeps_yields.
      unfold yields. cbn. rewrite Hw1. reflexivity.
    + left. unfold yields. cbn. rewrite Hw1. reflexivity.
  - left. cbn [final]. destruct (popped_rest metric wt) as (-> & _).
    rewrite Hthr. reflexivity.
Qed.

Lemma pass_yields cfg metrics loc w :
  exists ys,
    yields (history (final (for_each metrics (visit cfg (write_body cfg))
                              loc w)))
    = yields (history w) ++ ys
    /\ ys `sublist_of` metrics.*1.
Proof.
  revert loc w. induction metrics as [|[metric n] metrics IH]; intros loc w.
  - exists []. cbn. rewrite app_nil_r. split; [reflexivity|constructor].
  - cbn [for_each]. unfold bind.
    pose proof (visit_yield_step cfg metric n loc w) as Hstep.
    cbv zeta in Hstep.
    destruct (visit cfg (write_body cfg) (metric, n) loc w)
      as [loc' w'|e w'|w']; cbn [final] in *.
    + destruct (IH loc' w') as (ys & -> & Hsub).
      destruct Hstep as [->| ->].
      * exists ys. split; [reflexivity|]. cbn. by apply sublist_cons.
      * exists (metric :: ys). rewrite <- app_assoc. split; [reflexivity|].
        cbn. by apply sublist_skip.
    + destruct Hstep as [->| ->].
      * exists []. rewrite app_nil_r. split; [reflexivity|].
        apply sublist_nil_l.
      * exists [metric]. split; [reflexivity|]. cbn.
        apply sublist_skip, sublist_nil_l.
    + destruct Hstep as [->| ->].
      * exists []. rewrite app_nil_r. split; [reflexivity|].
        apply sublist_nil_l.
      * exists [metric]. split; [reflexivity|]. cbn.
        apply sublist_skip, sublist_nil_l.
Qed.

Lemma snapshot_ok cfg w metrics w' :
  snapshot cfg w = Ok metrics w' ->
  metrics = sort_desc (counts (cache (interfere w))).
Proof.
  rewrite snapshot_eq. cbv zeta.
  destruct (bool_decide ("state" ∈ scope w)); [|discriminate].
  intros H. injection H as <- _. reflexivity.
Qed.

Lemma snapshot_keeps_yields cfg :
  steady (keeps (fun w => yields (history w))) (snapshot cfg).
Proof.
  intros w. unfold keeps. rewrite snapshot_eq. cbv zeta.
  destruct (bool_decide ("state" ∈ scope w)); cbn [final]; [|reflexivity].
  destruct (cacheTooFull w && _); reflexivity.
Qed.

Lemma C4_witness :
  (throttle_step 3 (1030 * TICKS) (1000 * TICKS) 1).1.1 = true
  /\ (throttle_step 3 (1030 * TICKS) (1000 * TICKS) 2).1.1 <> true.
Proof.
  destruct (C4_creation_throttle (ex_cfg 3 500) ex_window) as [_ H].
  cbn zeta in H. split.
  - apply (H (1030 * TICKS) (1000 * TICKS) 1); vm_compute; reflexivity.
  - intros Hc.
    apply (H (1030 * TICKS) (1000 * TICKS) 2) in Hc;
      [vm_compute in Hc; discriminate|vm_compute; reflexivity].
Defined.

(** ** C9: draining the cache *)

#[local] Instance calm_preorder : PreOrder calm.
Proof.
  split.
  - intros w. unfold calm. auto 10.
  - intros w1 w2 w3 (P1 & C1 & S1 & N1 & F1 & I1) (P2 & C2 & S2 & N2 & F2 & I2).
    unfold calm. conjs; try congruence; [set_solver|auto].
Qed.

Ltac calm_prim :=
  intros ?w; unfold calm; cbn; conjs; auto;
  try (intros HF; apply Forall_tail; exact HF).

Lemma Forall_tl {A} (P : A -> Prop) l : Forall P l -> Forall P (tl l).
Proof. destruct 1; [constructor|assumption]. Qed.

Lemma whisper_create_calm path cfg_ : steady calm (whisper_create path cfg_).
Proof.
  intros w. unfold whisper_create. cbv zeta.
  change (create_io (tick w)) with (create_io w).
  destruct (hd true (create_io w)); unfold calm; cbn; conjs; auto;
    try set_solver; apply Forall_tl.
Qed.

Lemma ensure_file_calm u : steady calm (ensure_file u).
Proof.
  unfold ensure_file, create_file, createMetaFile.
  repeat steady_step; try apply whisper_create_calm;
    intros w; unfold calm; cbn; auto 10.
Qed.

Lemma commit_calm cfg u loc : steady calm (commit cfg u loc).
Proof.
  unfold commit, rate_limit.
  repeat steady_step; intros w; unfold calm; cbn; auto 10.
Qed.

Lemma creation_throttle_calm cfg : steady calm (creation_throttle cfg).
Proof.
  intros w. rewrite creation_throttle_eq. cbv zeta.
  unfold calm. cbn. auto 10.
Qed.

Lemma ensure_file_ok u w :
  (u_dbFileExists u = true
   \/ exists schema,
        find (fun s => schema_matches s (u_metric u)) (schemas w)
          = Some schema
        /\ schema_archives schema <> []) ->
  hd true (create_io w) = true ->
  exists w', ensure_file u w = Ok tt w'.
Proof.
  intros Hcan Hio. unfold ensure_file.
  destruct (u_dbFileExists u); [eexists; reflexivity|].
  destruct Hcan as [?|(schema & Hfind & Harch)]; [discriminate|].
  unfold create_file, bind, read_schemas. rewrite Hfind.
  destruct (schema_archives schema) as [|a l]; [done|].
  cbn. unfold whisper_create. cbn. rewrite Hio. cbn.
  eexists; reflexivity.
Qed.

Lemma commit_ok cfg u loc w :
  exists loc' w', commit cfg u loc w = Ok loc' w'.
Proof.
  unfold commit, bind, rate_limit, when. cbn.
  destruct (hd true (update_io w)); cbn; [|eauto].
  destruct (LOG_UPDATES cfg); cbn;
    destruct (negb _); cbn; eauto;
    destruct (_ <=? _); cbn; eauto.
Qed.

Lemma disturbed_quiet w : producers w = [] -> disturbed w = cache w.
Proof. intros H. unfold disturbed. rewrite H. reflexivity. Qed.

(** A turn of the loop in an undisturbed world: it returns, the metric
    is out of the cache and nothing came in. *)
Lemma visit_drains cfg metric n loc w :
  producers w = [] ->
  Forall (eq true) (create_io w) ->
  (forall m, m ∈ dom (cache w) -> creatable cfg w m) ->
  exists loc' w',
    visit cfg (write_body cfg) (metric, n) loc w = Ok loc' w'
    /\ producers w' = [] /\ Forall (eq true) (create_io w')
    /\ cache w' = delete metric (cache w)
    /\ schemas w' = schemas w /\ files w ⊆ files w'.
Proof.
  intros Hq Hio Hcan.
  destruct (visit_cases cfg (write_body cfg) metric n loc w)
    as (allowed & wt & Hthr & ->).
  pose proof (creation_throttle_calm cfg w) as Hcalm.
  rewrite Hthr in Hcalm. cbn [final] in Hcalm.
  destruct Hcalm as (Pt & Ct & St & _ & Ft & It).
  set (b := bool_decide (getFilesystemPath cfg metric ∈ files w)).
  assert (Hbf : b = false -> getFilesystemPath cfg metric ∉ files w)
    by apply bool_decide_eq_false_1.
  clearbody b.
  set (w1 := if b then w else wt).
  assert (Hw1 : producers w1 = [] /\ cache w1 = cache w
                /\ schemas w1 = schemas w /\ files w ⊆ files w1
                /\ Forall (eq true) (create_io w1)).
  { unfold w1. destruct b; [auto 10|].
    rewrite Pt, Ct, St. auto 10. }
  destruct Hw1 as (P1 & C1 & S1 & F1 & I1).
  destruct (b || allowed) eqn:Hgo.
  - assert (Hci : cache (interfere w1) = cache w)
      by (cbn; rewrite disturbed_quiet, C1; auto).
    rewrite Hci.
    destruct (cache w !! metric) as [dps|] eqn:Hpop.
    + set (u := {| u_metric := metric; u_datapoints := dps;
                   u_dbFilePath := getFilesystemPath cfg metric;
                   u_dbFileExists := b |}).
      set (wy := at_yield metric dps (getFilesystemPath cfg metric) b w1).
      assert (Hy : producers wy = [] /\ cache wy = delete metric (cache w)
                   /\ schemas wy = schemas w /\ files wy = files w1
                   /\ create_io wy = create_io w1).
      { unfold wy, at_yield. cbn. rewrite P1, disturbed_quiet, C1; auto. }
      destruct Hy as (Py & Cy & Sy & Fy & Iy).
      destruct (ensure_file_ok u wy) as (w2 & He).
      { change (u_metric u) with metric. change (u_dbFileExists u) with b.
        rewrite Sy.
        destruct b eqn:Hb; [left; reflexivity|right].
        destruct (Hcan metric) as [Hf|Hs].
        - apply elem_of_dom. eauto.
        - apply Hbf in Hf; [done|reflexivity].
        - exact Hs. }
      { rewrite Iy. destruct I1; [reflexivity|auto]. }
      pose proof (ensure_file_calm u wy) as Hc2. rewrite He in Hc2.
      cbn [final] in Hc2. destruct Hc2 as (P2 & C2 & S2 & _ & F2 & I2).
      destruct (commit_ok cfg u
                  {| updates := updates loc; lastSecond := lastSecond loc;
                     dataWritten := true |} w2) as (loc' & w3 & Hc).
      pose proof (commit_calm cfg u
                    {| updates := updates loc; lastSecond := lastSecond loc;
                       dataWritten := true |} w2) as Hc3.
      rewrite Hc in Hc3. cbn [final] in Hc3.
      destruct Hc3 as (P3 & C3 & S3 & _ & F3 & I3).
      exists loc', w3. split.
      { unfold write_body. cbv zeta. unfold bind. fold u. rewrite He.
        exact Hc. }
      rewrite P3, P2, C3, C2, S3, S2.
      conjs; auto; try (apply I3, I2; rewrite Iy; exact I1).
      rewrite Fy in F2. set_solver.
    + exists loc, (contention metric w1). split; [reflexivity|]. cbn.
      rewrite P1, disturbed_quiet, C1, S1 by exact P1.
      conjs; auto. symmetry. apply delete_id. exact Hpop.
  - exists loc, (popped metric wt). split; [reflexivity|].
    rewrite popped_cache.
    destruct (popped_rest metric wt)
      as (_ & _ & _ & -> & _ & _ & _ & _ & -> & -> & ->).
    cbn. rewrite disturbed_quiet, Pt, Ct, St by (rewrite Pt; exact Hq).
    rewrite Hq. conjs; auto.
Qed.

Lemma creatable_later cfg w w' metric :
  schemas w' = schemas w -> files w ⊆ files w' ->
  creatable cfg w metric -> creatable cfg w' metric.
Proof.
  intros Hs Hf [H|H]; [left; set_solver|right]. rewrite Hs. exact H.
Qed.

(** The loop over a snapshot in an undisturbed world: it returns, and
    every metric of the snapshot is out of the cache. *)
Lemma pass_drains cfg metrics loc w :
  producers w = [] ->
  Forall (eq true) (create_io w) ->
  (forall m, m ∈ dom (cache w) -> creatable cfg w m) ->
  exists loc' w',
    for_each metrics (visit cfg (write_body cfg)) loc w = Ok loc' w'
    /\ producers w' = []
    /\ (forall m, m ∈ dom (cache w') -> m ∈ dom (cache w) /\ m ∉ metrics.*1).
Proof.
  revert loc w. induction metrics as [|[metric n] metrics IH];
    intros loc w Hq Hio Hcan.
  - exists loc, w. split; [reflexivity|]. split; [exact Hq|].
    intros m Hm. split; [exact Hm|]. cbn. apply not_elem_of_nil.
  - destruct (visit_drains cfg metric n loc w Hq Hio Hcan)
      as (loc1 & w1 & Hv & P1 & I1 & C1 & S1 & F1).
    destruct (IH loc1 w1 P1 I1) as (loc2 & w2 & Hf & P2 & D2).
    { intros m Hm. rewrite C1, dom_delete_L in Hm.
      apply elem_of_difference in Hm as [Hm _].
      apply (creatable_later cfg w); auto. }
    exists loc2, w2. split; [|split; [exact P2|]].
    + rewrite (for_each_cons_ok _ _ _ _ _ _ _ Hv). exact Hf.
    + intros m Hm. apply D2 in Hm as [Hm Hnot].
      rewrite C1, dom_delete_L in Hm.
      apply elem_of_difference in Hm as [Hm Hne].
      apply not_elem_of_singleton in Hne. cbn. split; [exact Hm|].
      rewrite not_elem_of_cons. split; [exact Hne|exact Hnot].
Qed.

Lemma counts_names_dom c m : m ∈ dom c -> m ∈ (counts c).*1.
Proof.
  intros Hm. rewrite counts_names. apply elem_of_dom in Hm as [dps Hm].
  apply list_elem_of_fmap. exists (m, dps). split; [reflexivity|].
  apply elem_of_map_to_list. exact Hm.
Qed.

Lemma dom_empty_cache (c : gmap string (list datapoint)) :
  (forall m, m ∉ dom c) -> c = ∅.
Proof.
  intros H. apply map_empty. intros m.
  apply not_elem_of_dom. apply H.
Qed.

(** [writeCachedDataPoints] returns only from the test of the cache, when
    that finds it empty. *)
Lemma drain_returns_empty cfg fuel loc w w' :
  drain cfg fuel loc w = Ok tt w' -> cache w' = ∅.
Proof.
  revert loc w. induction fuel as [|fuel IH]; intros loc w; [discriminate|].
  cbn [drain]. unfold bind at 1. unfold MetricCache_bool. cbv zeta.
  destruct (size (cache (interfere w))) eqn:Esize; cbn [Nat.eqb negb].
  - unfold ret. intros H. injection H as <-.
    apply map_size_empty_inv. exact Esize.
  - unfold bind at 1.
    destruct (optimalWriteOrder cfg (write_body cfg) _ (interfere w))
      as [loc1 w1| |]; try discriminate.
    unfold bind at 1.
    destruct (when _ _ w1) as [[] w2| |]; try discriminate.
    apply IH.
Qed.

Lemma undisturbed_interfere cfg w :
  undisturbed cfg w ->
  undisturbed cfg (interfere w) /\ cache (interfere w) = cache w.
Proof.
  intros (Hstate & Hq & Hio & Hcan).
  assert (Hci : cache (interfere w) = cache w)
    by (cbn; apply disturbed_quiet, Hq).
  split; [|exact Hci]. unfold undisturbed. rewrite Hci. cbn.
  rewrite Hq. auto.
Qed.

(** A pass in an undisturbed world returns and leaves the cache empty. *)
Lemma pass_empties cfg loc w :
  undisturbed cfg w ->
  exists loc' w',
    optimalWriteOrder cfg (write_body cfg) loc w = Ok loc' w'
    /\ producers w' = [] /\ cache w' = ∅.
Proof.
  intros (Hstate & Hq & Hio & Hcan).
  assert (Hci : cache (interfere w) = cache w)
    by (cbn; apply disturbed_quiet, Hq).
  unfold optimalWriteOrder. unfold bind at 1.
  rewrite snapshot_eq. cbv zeta.
  rewrite bool_decide_eq_true_2 by exact Hstate.
  match goal with |- context [for_each (sort_desc ?s) _ _ ?x] =>
    set (snap := s); set (w1 := x) end.
  assert (H1 : producers w1 = [] /\ cache w1 = cache w
               /\ schemas w1 = schemas w /\ files w1 = files w
               /\ create_io w1 = create_io w).
  { unfold w1. destruct (cacheTooFull _ && _); cbn;
      rewrite Hq, disturbed_quiet by exact Hq; auto. }
  destruct H1 as (P1 & C1 & S1 & F1 & I1).
  destruct (pass_drains cfg (sort_desc snap) loc w1)
    as (loc2 & w2 & Hf & P2 & D2).
  { exact P1. }
  { rewrite I1. exact Hio. }
  { intros m Hm. rewrite C1 in Hm.
    apply (creatable_later cfg w); [auto|rewrite F1; done|auto]. }
  exists loc2, w2. split; [exact Hf|]. split; [exact P2|].
  apply dom_empty_cache. intros m Hm. apply D2 in Hm as [Hm Hnot].
  apply Hnot. rewrite sort_desc_perm. unfold snap.
  apply counts_names_dom. rewrite Hci, <- C1. exact Hm.
Qed.

(** In an undisturbed world two tests of the cache are enough: one pass
    empties it. *)
Lemma drain_terminates cfg fuel loc w :
  undisturbed cfg w ->
  exists w', drain cfg (S (S fuel)) loc w = Ok tt w' /\ cache w' = ∅.
Proof.
  intros Hu.
  assert (Hend : exists w', drain cfg (S (S fuel)) loc w = Ok tt w').
  { destruct (undisturbed_interfere cfg w Hu) as [Hu0 _].
    cbn [drain]. unfold bind at 1. unfold MetricCache_bool. cbv zeta.
    destruct (size (cache (interfere w))) eqn:Esize; cbn [Nat.eqb negb];
      [eexists; reflexivity|].
    unfold bind at 1.
    destruct (pass_empties cfg
                {| updates := updates loc; lastSecond := lastSecond loc;
                   dataWritten := false |} (interfere w) Hu0)
      as (loc2 & w2 & -> & P2 & C2).
    unfold bind at 1.
    assert (Hsleep : exists w3, when (negb (dataWritten loc2))
                                 (time_sleep (TICKS / 10)) w2 = Ok tt w3
                       /\ producers w3 = [] /\ cache w3 = ∅).
    { destruct (negb (dataWritten loc2)); eexists;
        (split; [reflexivity|]); cbn; auto. }
    destruct Hsleep as (w3 & -> & P3 & C3).
    unfold bind at 1.
    cbn [cache interfere set_producers set_cache].
    rewrite disturbed_quiet, C3 by exact P3.
    rewrite map_size_empty. cbn. eexists; reflexivity. }
  destruct Hend as (w' & Hw'). exists w'. split; [exact Hw'|].
  eapply drain_returns_empty, Hw'.
Qed.

(** *** A pass while no other thread touches the cache *)

Lemma claimed_nil c : claimed [] c c.
Proof. intros m. reflexivity. Qed.

Lemma claimed_cons x names c c' :
  claimed names (delete x c) c' -> claimed (x :: names) c c'.
Proof.
  intros H m. specialize (H m).
  destruct (decide (m = x)) as [->|Hne].
  - rewrite bool_decide_eq_true_2 by left.
    destruct (bool_decide (x ∈ names)); [exact H|].
    rewrite H. apply lookup_delete_eq.
  - rewrite lookup_delete_ne in H by congruence.
    destruct (bool_decide (m ∈ names)) eqn:E.
    + apply bool_decide_eq_true_1 in E.
      rewrite bool_decide_eq_true_2 by (right; exact E). exact H.
    + apply bool_decide_eq_false_1 in E.
      rewrite bool_decide_eq_false_2; [exact H|].
      rewrite elem_of_cons. intros [?|?]; auto.
Qed.

Lemma claimed_one x c : claimed [x] c (delete x c).
Proof. apply claimed_cons, claimed_nil. Qed.

Lemma ensure_file_outcome u w :
  match ensure_file u w with
  | Ok _ _ => True
  | Raise e _ =>
      u_dbFileExists u = false
      /\ ((e = NoSchemaMatched (u_metric u)
           /\ ~ (exists schema,
                   find (fun s => schema_matches s (u_metric u)) (schemas w)
                   = Some schema
                   /\ schema_archives schema <> []))
          \/ (e = StorageError (u_dbFilePath u)
              /\ hd true (create_io w) = false))
  | Timeout _ => False
  end.
Proof.
  unfold ensure_file. destruct (u_dbFileExists u); [exact I|].
  unfold create_file, bind, read_schemas.
  destruct (find _ (schemas w)) as [schema|] eqn:Hfind; cbn.
  - destruct (schema_archives schema) as [|a l] eqn:Harch; cbn.
    + split; [reflexivity|]. left. split; [reflexivity|].
      intros (s & Hs & Ha). congruence.
    + unfold whisper_create. cbn.
      destruct (hd true (create_io w)) eqn:Hio; cbn; [exact I|].
      split; [reflexivity|]. right. auto.
  - split; [reflexivity|]. left. split; [reflexivity|].
    intros (s & Hs & _). discriminate.
Qed.

Lemma hd_false_not_all (l : list bool) :
  hd true l = false -> ~ Forall (eq true) l.
Proof.
  destruct l as [|b l]; cbn; [discriminate|].
  intros -> H. inversion H. discriminate.
Qed.

(** A turn of the loop while the producers are quiet: the metric is out
    of the cache whatever happens, and the turn raises for the two
    reasons of [turn_failure] only. *)
Lemma visit_quiet cfg metric n loc w :
  producers w = [] ->
  let r := visit cfg (write_body cfg) (metric, n) loc w in
  producers (final r) = []
  /\ cache (final r) = delete metric (cache w)
  /\ schemas (final r) = schemas w
  /\ files w ⊆ files (final r)
  /\ (Forall (eq true) (create_io w) ->
      Forall (eq true) (create_io (final r)))
  /\ match r with
     | Ok _ _ => True
     | Raise e _ => turn_failure cfg w metric e
     | Timeout _ => False
     end.
Proof.
  intros Hq. cbv zeta.
  destruct (visit_cases cfg (write_body cfg) metric n loc w)
    as (allowed & wt & Hthr & ->).
  pose proof (creation_throttle_calm cfg w) as Hcalm.
  rewrite Hthr in Hcalm. cbn [final] in Hcalm.
  destruct Hcalm as (Pt & Ct & St & _ & Ft & It).
  set (b := bool_decide (getFilesystemPath cfg metric ∈ files w)).
  assert (Hbf : b = false -> getFilesystemPath cfg metric ∉ files w)
    by apply bool_decide_eq_false_1.
  clearbody b.
  set (w1 := if b then w else wt).
  assert (Hw1 : producers w1 = [] /\ cache w1 = cache w
                /\ schemas w1 = schemas w /\ files w ⊆ files w1
                /\ (Forall (eq true) (create_io w) ->
                    Forall (eq true) (create_io w1))).
  { unfold w1. destruct b; [auto 10|].
    rewrite Pt, Ct, St. auto 10. }
  destruct Hw1 as (P1 & C1 & S1 & F1 & I1).
  destruct (b || allowed) eqn:Hgo.
  - assert (Hci : cache (interfere w1) = cache w)
      by (cbn; rewrite disturbed_quiet, C1; auto).
    rewrite Hci.
    destruct (cache w !! metric) as [dps|] eqn:Hpop.
    + set (u := {| u_metric := metric; u_datapoints := dps;
                   u_dbFilePath := getFilesystemPath cfg metric;
                   u_dbFileExists := b |}).
      set (wy := at_yield metric dps (getFilesystemPath cfg metric) b w1).
      assert (Hy : producers wy = [] /\ cache wy = delete metric (cache w)
                   /\ schemas wy = schemas w /\ files wy = files w1
                   /\ create_io wy = create_io w1).
      { unfold wy, at_yield. cbn. rewrite P1, disturbed_quiet, C1; auto. }
      destruct Hy as (Py & Cy & Sy & Fy & Iy).
      pose proof (ensure_file_calm u wy) as Hc2.
      pose proof (ensure_file_outcome u wy) as Ho.
      assert (Hwb : write_body cfg u loc wy
                    = match ensure_file u wy with
                      | Ok _ w2 =>
                          commit cfg u
                            {| updates := updates loc;
                               lastSecond := lastSecond loc;
                               dataWritten := true |} w2
                      | Raise e w2 => Raise e w2
                      | Timeout w2 => Timeout w2
                      end) by reflexivity.
      rewrite Hwb. clear Hwb.
      destruct (ensure_file u wy) as [[] w2|e w2|w2]; cbn [final] in Hc2;
        [| |destruct Ho].
      * destruct Hc2 as (P2 & C2 & S2 & _ & F2 & I2).
        destruct (commit_ok cfg u
                    {| updates := updates loc; lastSecond := lastSecond loc;
                       dataWritten := true |} w2) as (loc' & w3 & Hc).
        pose proof (commit_calm cfg u
                      {| updates := updates loc;
                         lastSecond := lastSecond loc;
                         dataWritten := true |} w2) as Hc3.
        rewrite Hc in Hc3 |- *. cbn [final] in Hc3 |- *.
        destruct Hc3 as (P3 & C3 & S3 & _ & F3 & I3).
        rewrite P3, P2, C3, C2, S3, S2.
        split; [exact Py|]. split; [exact Cy|]. split; [exact Sy|].
        split.
        { transitivity (files w1); [exact F1|]. rewrite <- Fy.
          transitivity (files w2); [exact F2|exact F3]. }
        split; [|exact I].
        intros HF. apply I3, I2. rewrite Iy. auto.
      * destruct Hc2 as (P2 & C2 & S2 & _ & F2 & I2). cbn [final].
        rewrite P2, C2, S2.
        split; [exact Py|]. split; [exact Cy|]. split; [exact Sy|].
        split.
        { transitivity (files w1); [exact F1|]. rewrite <- Fy. exact F2. }
        split; [intros HF; apply I2; rewrite Iy; auto|].
        destruct Ho as [Hb Hwhy]. change (u_dbFileExists u) with b in Hb.
        split; [apply Hbf, Hb|].
        change (u_metric u) with metric in Hwhy.
        change (u_dbFilePath u) with (getFilesystemPath cfg metric) in Hwhy.
        destruct Hwhy as [[-> Hno]|[-> Hio]].
        -- left. split; [reflexivity|].
           intros [Hf|Hs]; [apply (Hbf Hb), Hf|].
           apply Hno. rewrite Sy. exact Hs.
        -- right. split; [reflexivity|]. intros HF.
           apply (hd_false_not_all _ Hio). rewrite Iy. auto.
    + cbn. rewrite P1, disturbed_quiet, C1, S1 by exact P1.
      conjs; auto. symmetry. apply delete_id. exact Hpop.
  - cbn [final]. rewrite popped_cache.
    destruct (popped_rest metric wt)
      as (_ & _ & _ & -> & _ & _ & _ & _ & -> & -> & ->).
    cbn. rewrite disturbed_quiet, Pt, Ct, St by (rewrite Pt; exact Hq).
    rewrite Hq. conjs; auto.
Qed.

Lemma turn_failure_earlier cfg w w1 metric e :
  schemas w1 = schemas w -> files w ⊆ files w1 ->
  (Forall (eq true) (create_io w) -> Forall (eq true) (create_io w1)) ->
  turn_failure cfg w1 metric e -> turn_failure cfg w metric e.
Proof.
  intros Hs Hf Hio [Hfile Hwhy].
  split; [intros Hin; apply Hfile, Hf, Hin|].
  destruct Hwhy as [[-> Hno]|[-> Hfail]]; [left|right];
    (split; [reflexivity|]).
  - intros Hc. apply Hno. eapply creatable_later; eassumption.
  - auto.
Qed.

(** The loop over a snapshot while the producers are quiet: it returns
    with every metric of the snapshot out of the cache, or it raises in
    the turn of a metric, with the metrics up to that one out of the
    cache. *)
Lemma loop_quiet cfg metrics :
  forall loc w,
  producers w = [] ->
  match for_each metrics (visit cfg (write_body cfg)) loc w with
  | Ok _ w' => producers w' = [] /\ claimed metrics.*1 (cache w) (cache w')
  | Raise e w' =>
      exists pre metric n post,
        metrics = pre ++ (metric, n) :: post
        /\ turn_failure cfg w metric e
        /\ claimed (pre.*1 ++ [metric]) (cache w) (cache w')
  | Timeout _ => False
  end.
Proof.
  induction metrics as [|[metric n] metrics IH]; intros loc w Hq.
  - cbn. split; [exact Hq|apply claimed_nil].
  - cbn [for_each]. unfold bind.
    pose proof (visit_quiet cfg metric n loc w Hq) as Hv. cbv zeta in Hv.
    destruct (visit cfg (write_body cfg) (metric, n) loc w)
      as [loc1 w1|e w1|w1]; cbn [final] in Hv;
      destruct Hv as (P1 & C1 & S1 & F1 & I1 & Hout); [| |destruct Hout].
    + specialize (IH loc1 w1 P1).
      destruct (for_each metrics (visit cfg (write_body cfg)) loc1 w1)
        as [loc2 w2|e w2|w2]; [| |destruct IH].
      * destruct IH as [P2 Hcl]. split; [exact P2|]. cbn.
        apply claimed_cons. rewrite <- C1. exact Hcl.
      * destruct IH as (pre & m & k & post & -> & Hfail & Hcl).
        exists ((metric, n) :: pre), m, k, post.
        split; [reflexivity|]. split.
        -- eapply turn_failure_earlier; eassumption.
        -- cbn. apply claimed_cons. rewrite <- C1. exact Hcl.
    + exists [], metric, n, metrics. split; [reflexivity|].
      split; [exact Hout|]. cbn. rewrite C1. apply claimed_one.
Qed.

Lemma in_snapshot c m : m ∈ (sort_desc (counts c)).*1 <-> m ∈ dom c.
Proof.
  rewrite sort_desc_perm, counts_names. rewrite elem_of_dom. split.
  - intros H. apply list_elem_of_fmap in H as ([m' dps] & -> & H).
    apply elem_of_map_to_list in H. eauto.
  - intros [dps H]. apply list_elem_of_fmap. exists (m, dps).
    split; [reflexivity|]. apply elem_of_map_to_list. exact H.
Qed.

Lemma claimed_all c c' : claimed (sort_desc (counts c)).*1 c c' -> c' = ∅.
Proof.
  intros H. apply map_empty. intros m. rewrite H.
  destruct (bool_decide (m ∈ (sort_desc (counts c)).*1)) eqn:E;
    [reflexivity|].
  apply bool_decide_eq_false_1 in E. rewrite in_snapshot in E.
  apply not_elem_of_dom. exact E.
Qed.

Lemma claimed_prefix c c' pre x post :
  sort_desc (counts c) = pre ++ x :: post ->
  claimed (pre.*1 ++ [x.1]) c c' -> left_with post.*1 c c'.
Proof.
  intros Hsplit H m. rewrite H.
  assert (Hnd : NoDup (pre.*1 ++ [x.1] ++ post.*1)).
  { pose proof (counts_NoDup c) as Hnd.
    rewrite <- (sort_desc_perm (counts c)), Hsplit in Hnd.
    rewrite fmap_app in Hnd. exact Hnd. }
  destruct (bool_decide (m ∈ post.*1)) eqn:Epost.
  - apply bool_decide_eq_true_1 in Epost.
    rewrite bool_decide_eq_false_2; [reflexivity|].
    rewrite app_assoc in Hnd. apply NoDup_app in Hnd as (_ & Hdis & _).
    intros Hin. exact (Hdis m Hin Epost).
  - apply bool_decide_eq_false_1 in Epost.
    destruct (bool_decide (m ∈ pre.*1 ++ [x.1])) eqn:Epre; [reflexivity|].
    apply bool_decide_eq_false_1 in Epre.
    apply not_elem_of_dom. rewrite <- in_snapshot, Hsplit, fmap_app.
    cbn. intros Hin. apply elem_of_app in Hin as [Hin|Hin].
    + apply Epre, elem_of_app. left. exact Hin.
    + apply elem_of_cons in Hin as [->|Hin].
      * apply Epre, elem_of_app. right. left.
      * exact (Epost Hin).
Qed.

(** A pass while the producers are quiet and [state] resolves. *)
Lemma pass_quiet cfg loc w :
  "state" ∈ scope w -> producers w = [] ->
  match optimalWriteOrder cfg (write_body cfg) loc w with
  | Ok _ w' => producers w' = [] /\ cache w' = ∅
  | Raise e w' =>
      exists pre metric n post,
        sort_desc (counts (cache w)) = pre ++ (metric, n) :: post
        /\ turn_failure cfg w metric e
        /\ left_with post.*1 (cache w) (cache w')
  | Timeout _ => False
  end.
Proof.
  intros Hstate Hq.
  assert (Hci : cache (interfere w) = cache w)
    by (cbn; apply disturbed_quiet, Hq).
  unfold optimalWriteOrder. unfold bind at 1.
  rewrite snapshot_eq. cbv zeta.
  rewrite bool_decide_eq_true_2 by exact Hstate. rewrite Hci.
  match goal with |- context [for_each _ _ _ ?x] => set (w1 := x) end.
  assert (H1 : producers w1 = [] /\ cache w1 = cache w
               /\ schemas w1 = schemas w /\ files w1 = files w
               /\ create_io w1 = create_io w).
  { unfold w1. destruct (cacheTooFull _ && _); cbn;
      rewrite Hq, disturbed_quiet by exact Hq; auto. }
  destruct H1 as (P1 & C1 & S1 & F1 & I1).
  pose proof (loop_quiet cfg (sort_desc (counts (cache w))) loc w1 P1)
    as Hloop.
  destruct (for_each _ _ loc w1) as [loc2 w2|e w2|w2]; [| |exact Hloop].
  - destruct Hloop as [P2 Hcl]. split; [exact P2|].
    rewrite C1 in Hcl. eapply claimed_all, Hcl.
  - destruct Hloop as (pre & metric & n & post & Hsplit & Hfail & Hcl).
    exists pre, metric, n, post. split; [exact Hsplit|]. split.
    + destruct Hfail as [Hfile Hwhy]. rewrite F1 in Hfile.
      split; [exact Hfile|].
      destruct Hwhy as [[-> Hno]|[-> Hio]]; [left|right];
        (split; [reflexivity|]).
      * intros Hc. apply Hno. apply (creatable_later cfg w);
          [exact S1|rewrite F1; done|exact Hc].
      * rewrite <- I1. exact Hio.
    + rewrite C1 in Hcl.
      apply (claimed_prefix _ _ pre (metric, n) post Hsplit Hcl).
Qed.

(** The call while the producers are quiet and [state] resolves: after
    one pass it returns or has raised. *)
Lemma drain_quiet cfg fuel loc w :
  "state" ∈ scope w -> producers w = [] ->
  match drain cfg (S (S fuel)) loc w with
  | Ok _ w' => cache w' = ∅
  | Raise e w' =>
      exists pre metric n post,
        sort_desc (counts (cache w)) = pre ++ (metric, n) :: post
        /\ turn_failure cfg w metric e
        /\ left_with post.*1 (cache w) (cache w')
  | Timeout _ => False
  end.
Proof.
  intros Hstate Hq.
  assert (Hci : cache (interfere w) = cache w)
    by (cbn; apply disturbed_quiet, Hq).
  change (drain cfg (S (S fuel)) loc w)
    with (bind MetricCache_bool (fun nonempty : bool =>
            if nonempty then
              bind (optimalWriteOrder cfg (write_body cfg)
                      {| updates := updates loc;
                         lastSecond := lastSecond loc;
                         dataWritten := false |})
                (fun loc' =>
                   bind (when (negb (dataWritten loc'))
                           (time_sleep (TICKS / 10)))
                     (fun _ => drain cfg (S fuel) loc'))
            else ret tt) w).
  unfold bind at 1. unfold MetricCache_bool. cbv zeta. rewrite Hci.
  destruct (size (cache w)) as [|k] eqn:Esize; cbn [Nat.eqb negb].
  - cbn. rewrite disturbed_quiet by exact Hq.
    apply map_size_empty_inv. exact Esize.
  - unfold bind at 1.
    pose proof (pass_quiet cfg
                  {| updates := updates loc; lastSecond := lastSecond loc;
                     dataWritten := false |} (interfere w)) as Hpass.
    rewrite Hci in Hpass.
    destruct (optimalWriteOrder cfg (write_body cfg) _ (interfere w))
      as [loc2 w2|e w2|w2].
    + destruct Hpass as [P2 C2]; [exact Hstate|cbn; rewrite Hq; done|].
      unfold bind at 1.
      assert (Hsleep : exists w3, when (negb (dataWritten loc2))
                                   (time_sleep (TICKS / 10)) w2 = Ok tt w3
                         /\ producers w3 = [] /\ cache w3 = ∅).
      { destruct (negb (dataWritten loc2)); eexists;
          (split; [reflexivity|]); cbn; auto. }
      destruct Hsleep as (w3 & -> & P3 & C3).
      change (drain cfg (S fuel) loc2 w3)
        with (bind MetricCache_bool (fun nonempty : bool =>
                if nonempty then
                  bind (optimalWriteOrder cfg (write_body cfg)
                          {| updates := updates loc2;
                             lastSecond := lastSecond loc2;
                             dataWritten := false |})
                    (fun loc' =>
                       bind (when (negb (dataWritten loc'))
                               (time_sleep (TICKS / 10)))
                         (fun _ => drain cfg fuel loc'))
                else ret tt) w3).
      unfold bind at 1. unfold MetricCache_bool. cbv zeta.
      assert (Hc3 : cache (interfere w3) = ∅).
      { unfold interfere. cbn [cache set_producers set_cache].
        rewrite disturbed_quiet by exact P3. exact C3. }
      rewrite Hc3, map_size_empty. cbn. exact Hc3.
    + destruct Hpass as (pre & metric & n & post & H1 & H2 & H3);
        [exact Hstate|cbn; rewrite Hq; done|].
      exists pre, metric, n, post. split; [exact H1|]. split; [|exact H3].
      destruct H2 as [Hfile Hwhy]. split; [exact Hfile|].
      destruct Hwhy as [[-> Hno]|[-> Hio]]; [left|right];
        (split; [reflexivity|]); auto.
    + apply Hpass; [exact Hstate|cbn; rewrite Hq; done].
Qed.

(** The call in a world where [state] does not resolve, while the
    producers are quiet. *)
Lemma drain_unbound_quiet cfg fuel loc w :
  "state" ∉ scope w -> producers w = [] -> cache w <> ∅ ->
  exists w', drain cfg (S fuel) loc w = Raise (NameError "state") w'
    /\ cache w' = cache w /\ history w' = history w.
Proof.
  intros Hs Hq Hne.
  assert (Hci : cache (interfere w) = cache w)
    by (cbn; apply disturbed_quiet, Hq).
  change (drain cfg (S fuel) loc w)
    with (bind MetricCache_bool (fun nonempty : bool =>
            if nonempty then
              bind (optimalWriteOrder cfg (write_body cfg)
                      {| updates := updates loc;
                         lastSecond := lastSecond loc;
                         dataWritten := false |})
                (fun loc' =>
                   bind (when (negb (dataWritten loc'))
                           (time_sleep (TICKS / 10)))
                     (fun _ => drain cfg fuel loc'))
            else ret tt) w).
  unfold bind at 1. unfold MetricCache_bool. cbv zeta. rewrite Hci.
  destruct (size (cache w)) as [|k] eqn:Esize;
    [apply map_size_empty_inv in Esize; contradiction|].
  cbn [Nat.eqb negb]. unfold bind at 1. unfold optimalWriteOrder.
  unfold bind at 1.
  destruct (snapshot_unbound cfg (interfere w)) as (w' & -> & Hh & Hc & _);
    [exact Hs|].
  exists w'. split; [reflexivity|]. rewrite Hh, Hc. split; [|reflexivity].
  cbn. rewrite !disturbed_quiet; cbn; rewrite ?Hq; try reflexivity.
  apply disturbed_quiet, Hq.
Qed.

(** C9 (as the code has it).  [writeCachedDataPoints] returns only from
    its test of the cache, so the cache is empty when it returns.  But a
    call does not always return.  In the module as it is written the
    name [state] does not resolve: on a cache that is not empty the call
    raises [NameError] and no backlog has left the cache.  Where [state]
    resolves and no other thread touches the cache, the call ends after
    one pass: it returns with the cache empty, or it raises in the turn
    of a new metric (no schema with archives matches it, or the creation
    of its file fails), and then the metrics after that one in the
    snapshot are still in the cache with their backlogs, and nothing
    else is.  It returns when every metric in the cache has a file or
    matches a schema with archives, and no creation fails. *)
Theorem C9_drains_until_empty cfg w :
  (forall fuel w', writeCachedDataPoints cfg fuel w = Ok tt w' ->
                   cache w' = ∅)
  /\ (scope w = module_scope -> producers w = [] -> cache w <> ∅ ->
      forall fuel,
        exists w', writeCachedDataPoints cfg (S fuel) w
                   = Raise (NameError "state") w'
          /\ cache w' = cache w /\ history w' = history w)
  /\ ("state" ∈ scope w -> producers w = [] ->
      forall fuel, (2 <= fuel)%nat ->
        (exists w', writeCachedDataPoints cfg fuel w = Ok tt w'
                    /\ cache w' = ∅)
        \/ (exists e w' pre metric n post,
              writeCachedDataPoints cfg fuel w = Raise e w'
              /\ sort_desc (counts (cache w)) = pre ++ (metric, n) :: post
              /\ (getFilesystemPath cfg metric ∉ files w)
              /\ ((e = NoSchemaMatched metric /\ ~ creatable cfg w metric)
                  \/ (e = StorageError (getFilesystemPath cfg metric)
                      /\ ~ Forall (eq true) (create_io w)))
              /\ (forall m,
                    cache w' !! m
                    = if bool_decide (m ∈ post.*1) then cache w !! m
                      else None)))
  /\ (undisturbed cfg w ->
      forall fuel, (2 <= fuel)%nat ->
        exists w', writeCachedDataPoints cfg fuel w = Ok tt w'
                   /\ cache w' = ∅).
Proof.
  conjs.
  - intros fuel w'. unfold writeCachedDataPoints.
    apply drain_returns_empty.
  - intros Hscope Hq Hne fuel. unfold writeCachedDataPoints.
    apply drain_unbound_quiet; [|exact Hq|exact Hne].
    rewrite Hscope. apply state_not_in_module_scope.
  - intros Hstate Hq fuel Hfuel. unfold writeCachedDataPoints.
    destruct fuel as [|[|fuel]]; try lia.
    pose proof (drain_quiet cfg fuel
                  {| updates := 0; lastSecond := 0; dataWritten := false |}
                  w Hstate Hq) as H.
    destruct (drain cfg (S (S fuel)) _ w) as [[] w'|e w'|w'];
      [left|right|destruct H].
    + exists w'. split; [reflexivity|exact H].
    + destruct H as (pre & metric & n & post & H1 & [H2 H3] & H4).
      exists e, w', pre, metric, n, post. auto 10.
  - intros Hu fuel Hfuel. unfold writeCachedDataPoints.
    destruct fuel as [|[|fuel]]; try lia.
    apply drain_terminates, Hu.
Qed.

Lemma C9_witness :
  (exists w', writeCachedDataPoints (ex_cfg 3 500) 2 ex_two = Ok tt w'
              /\ cache w' = ∅)
  /\ (exists w', writeCachedDataPoints (ex_cfg 3 500) 1 ex_as_written
                 = Raise (NameError "state") w'
        /\ cache w' = cache ex_as_written).
Proof.
  split.
  - destruct (C9_drains_until_empty (ex_cfg 3 500) ex_two) as (_ & _ & _ & H).
    apply H; [|reflexivity].
    unfold undisturbed. conjs.
    + apply (bool_decide_unpack _). vm_compute. exact I.
    + reflexivity.
    + constructor.
    + intros metric _. right. exists default_schema.
      split; [reflexivity|discriminate].
  - destruct (C9_drains_until_empty (ex_cfg 3 500) ex_as_written)
      as (_ & H & _).
    destruct (H eq_refl eq_refl) with (fuel := 0%nat) as (w' & Hr & Hc & _).
    + intros E. apply (f_equal (fun c => c !! "c")) in E.
      vm_compute in E. discriminate.
    + exists w'. split; assumption.
Defined.

(** C9, the claim as it is worded: nothing arrives while the writer
    drains.  In the module as it is written the cache holds metric [c];
    the call ends with [NameError] and the backlog of [c] is still in
    the cache.  And where [state] resolves: the cache holds [d] and [g]
    and no schema matches; the call ends with the exception of line 108
    and the backlog of [g] is still in the cache. *)
Lemma C9_counterexample :
  (producers ex_as_written = []
   /\ scope ex_as_written = module_scope
   /\ exists w', writeCachedDataPoints (ex_cfg 3 500) 5 ex_as_written
                 = Raise (NameError "state") w'
        /\ cache w' !! "c" = Some (points 2)
        /\ cache w' <> ∅)
  /\ (producers ex_stuck = []
      /\ exists w', writeCachedDataPoints (ex_cfg 3 500) 5 ex_stuck
                    = Raise (NoSchemaMatched "d") w'
           /\ cache w' !! "g" = Some (points 1)
           /\ cache w' <> ∅).
Proof.
  split.
  - split; [reflexivity|]. split; [reflexivity|].
    eexists. split; [vm_compute; reflexivity|]. split; [reflexivity|].
    intros H. apply (f_equal (fun c => c !! "c")) in H.
    vm_compute in H. discriminate.
  - split; [reflexivity|].
    eexists. split; [vm_compute; reflexivity|]. split; [reflexivity|].
    intros H. apply (f_equal (fun c => c !! "g")) in H.
    vm_compute in H. discriminate.
Qed.

(** ** C5: what a pass yields, and in which order *)

(** The turn of a metric that is in the cache and has a file, while the
    producers are quiet: the metric is yielded. *)
Lemma visit_yields_file cfg metric n loc w :
  producers w = [] ->
  getFilesystemPath cfg metric ∈ files w ->
  is_Some (cache w !! metric) ->
  yields (history (final (visit cfg (write_body cfg) (metric, n) loc w)))
  = yields (history w) ++ [metric].
Proof.
  intros Hq Hfile [dps Hdps].
  destruct (visit_cases cfg (write_body cfg) metric n loc w)
    as (allowed & wt & _ & ->).
  rewrite bool_decide_eq_true_2 by exact Hfile. cbn [orb].
  assert (Hci : cache (interfere w) = cache w)
    by (cbn; apply disturbed_quiet, Hq).
  rewrite Hci, Hdps. rewrite write_body_keeps_yields.
  reflexivity.
Qed.

(** The loop over a snapshot while the producers are quiet: when it
    returns, every metric of the snapshot that was in the cache and had
    a file has been yielded. *)
Lemma loop_yields_files cfg metrics :
  forall loc w,
  producers w = [] -> NoDup metrics.*1 ->
  (forall m, m ∈ metrics.*1 -> is_Some (cache w !! m)) ->
  forall loc' w',
  for_each metrics (visit cfg (write_body cfg)) loc w = Ok loc' w' ->
  forall m, m ∈ metrics.*1 -> getFilesystemPath cfg m ∈ files w ->
  exists y1 y2,
    yields (history w') = yields (history w) ++ y1 ++ m :: y2.
Proof.
  induction metrics as [|[metric n] metrics IH];
    intros loc w Hq Hnd Hin loc' w' Hrun m Hm Hfile.
  - cbn in Hm. inversion Hm.
  - cbn [fmap list_fmap] in Hnd, Hin, Hm.
    apply NoDup_cons in Hnd as [Hfresh Hnd].
    cbn [for_each] in Hrun. unfold bind in Hrun.
    pose proof (visit_quiet cfg metric n loc w Hq) as Hv. cbv zeta in Hv.
    pose proof (visit_yield_step cfg metric n loc w) as Hstep.
    cbv zeta in Hstep.
    pose proof (visit_yields_file cfg metric n loc w Hq) as Hyf.
    destruct (visit cfg (write_body cfg) (metric, n) loc w)
      as [loc1 w1|e w1|w1]; try discriminate.
    cbn [final] in Hv, Hstep, Hyf.
    destruct Hv as (P1 & C1 & S1 & F1 & _).
    pose proof (pass_yields cfg metrics loc1 w1) as (ys & Hys & _).
    rewrite Hrun in Hys. cbn [final] in Hys.
    apply elem_of_cons in Hm as [->|Hm].
    + exists [], ys. rewrite Hys, Hyf; [|exact Hfile|apply Hin; left].
      rewrite <- app_assoc. reflexivity.
    + destruct (IH loc1 w1 P1 Hnd) with (loc' := loc') (w' := w') (m := m)
        as (y1 & y2 & Hy).
      * intros m' Hm'. rewrite C1, lookup_delete_ne.
        -- apply Hin. right. exact Hm'.
        -- intros ->. exact (Hfresh Hm').
      * exact Hrun.
      * exact Hm.
      * apply F1, Hfile.
      * destruct Hstep as [E|E]; rewrite E in Hy.
        -- exists y1, y2. exact Hy.
        -- exists (metric :: y1), y2. rewrite Hy, <- app_assoc.
           reflexivity.
Qed.

(** A pass where [state] resolves and the producers are quiet: when it
    returns, every metric of the snapshot that had a file has been
    yielded. *)
Lemma pass_yields_files cfg loc w m :
  "state" ∈ scope w -> producers w = [] ->
  m ∈ (sort_desc (counts (cache w))).*1 ->
  getFilesystemPath cfg m ∈ files w ->
  match optimalWriteOrder cfg (write_body cfg) loc w with
  | Ok _ w' =>
      exists y1 y2, yields (history w') = yields (history w) ++ y1 ++ m :: y2
  | _ => True
  end.
Proof.
  intros Hstate Hq Hm Hfile.
  assert (Hci : cache (interfere w) = cache w)
    by (cbn; apply disturbed_quiet, Hq).
  unfold optimalWriteOrder. unfold bind at 1.
  rewrite snapshot_eq. cbv zeta.
  rewrite bool_decide_eq_true_2 by exact Hstate. rewrite Hci.
  match goal with |- context [for_each _ _ _ ?x] => set (w1 := x) end.
  assert (H1 : producers w1 = [] /\ cache w1 = cache w
               /\ files w1 = files w
               /\ yields (history w1) = yields (history w)).
  { unfold w1. destruct (cacheTooFull _ && _); cbn;
      rewrite Hq, disturbed_quiet by exact Hq; auto. }
  destruct H1 as (P1 & C1 & F1 & Y1).
  assert (Hnd : NoDup (sort_desc (counts (cache w))).*1)
    by (rewrite sort_desc_perm; apply counts_NoDup).
  pose proof (loop_yields_files cfg (sort_desc (counts (cache w))) loc w1
                P1 Hnd) as Hloop.
  destruct (for_each _ _ loc w1) as [loc2 w2|e w2|w2]; [|exact I|exact I].
  rewrite <- Y1. apply (Hloop) with (loc' := loc2).
  - intros m' Hm'. rewrite C1. apply elem_of_dom, in_snapshot, Hm'.
  - reflexivity.
  - exact Hm.
  - rewrite F1. exact Hfile.
Qed.

(** A subsequence of a list of pairs sorted by decreasing count, with
    distinct names: a name with a smaller count is never followed by one
    with a larger count. *)
Lemma yielded_in_order (metrics : list (string * nat)) ys a na b nb y1 y2 :
  NoDup metrics.*1 -> StronglySorted desc metrics ->
  ys `sublist_of` metrics.*1 ->
  (a, na) ∈ metrics -> (b, nb) ∈ metrics -> (nb < na)%nat ->
  ys = y1 ++ b :: y2 ->
  (a ∉ y2) /\ (a ∈ ys -> a ∈ y1).
Proof.
  intros Hnd Hs Hsub HAm HBm Hlt Hsplit.
  assert (Hnot : a ∉ y2).
  { intros Hin. rewrite Hsplit in Hsub.
    apply sublist_app_cons_l in Hsub as (k1 & k2 & Hk & _ & Hsub2).
    apply fmap_app_inv in Hk as (m1 & m2' & -> & Hk2 & Hm).
    symmetry in Hk2.
    apply fmap_cons_inv in Hk2 as ([b' nb'] & m2 & Hb & -> & ->).
    cbn in Hb. subst b'.
    assert (Ha2 : a ∈ m2.*1) by (eapply elem_of_sublist; eassumption).
    apply list_elem_of_fmap in Ha2 as ([a' na'] & Ha' & Ha2). cbn in Ha'.
    subst a'.
    assert (na' = na).
    { apply (NoDup_fst_functional metrics a); [exact Hnd| |exact HAm].
      rewrite Hm. apply elem_of_app. right. by right. }
    assert (nb' = nb).
    { apply (NoDup_fst_functional metrics b); [exact Hnd| |exact HBm].
      rewrite Hm. apply elem_of_app. right. by left. }
    subst na' nb'. rewrite Hm in Hs.
    pose proof (sorted_after m1 (b, nb) m2 (a, na) Hs Ha2) as Hd.
    cbn in Hd. lia. }
  split; [exact Hnot|]. intros Hin. rewrite Hsplit in Hin.
  apply elem_of_app in Hin as [Hin|Hin]; [exact Hin|].
  apply elem_of_cons in Hin as [Hab|Hin]; [|contradiction].
  exfalso. subst a.
  pose proof (NoDup_fst_functional metrics b na nb Hnd HAm HBm). lia.
Qed.

(** What a pass yields is a subsequence of the sorted snapshot. *)
Lemma pass_yields_sublist cfg loc w :
  exists ys,
    yields (history (final (optimalWriteOrder cfg (write_body cfg) loc w)))
    = yields (history w) ++ ys
    /\ ys `sublist_of` (sort_desc (counts (cache (interfere w)))).*1.
Proof.
  unfold optimalWriteOrder, bind.
  pose proof (snapshot_keeps_yields cfg w) as Hk. unfold keeps in Hk.
  destruct (snapshot cfg w) as [ms w'|e w'|w'] eqn:Hsnap; cbn [final] in *.
  - apply snapshot_ok in Hsnap. subst ms.
    destruct (pass_yields cfg (sort_desc (counts (cache (interfere w))))
                loc w') as (ys & Hy & Hsub).
    exists ys. rewrite Hy, Hk. auto.
  - exists []. rewrite app_nil_r, Hk. split; [reflexivity|].
    apply sublist_nil_l.
  - exists []. rewrite app_nil_r, Hk. split; [reflexivity|].
    apply sublist_nil_l.
Qed.

(** Where [state] does not resolve, a pass yields nothing. *)
Lemma pass_unbound_yields cfg loc w :
  "state" ∉ scope w ->
  yields (history (final (optimalWriteOrder cfg (write_body cfg) loc w)))
  = yields (history w).
Proof.
  intros Hs.
  destruct (snapshot_unbound cfg w Hs) as (w' & Hsnap & Hh & _).
  unfold optimalWriteOrder, bind. rewrite Hsnap. cbn [final].
  rewrite Hh. reflexivity.
Qed.

(** C5 (as the code has it).  A pass iterates over the snapshot of the
    counts sorted by decreasing count: in that order a metric with a
    strictly larger backlog at the snapshot comes before one with a
    smaller backlog.  What the pass yields is a subsequence of that
    order, since a turn yields its metric or nothing: a metric with a
    smaller backlog is never yielded before one with a larger backlog,
    and if both are yielded the larger one comes first.  Not every
    metric of the snapshot is yielded: where [state] does not resolve
    nothing is; and where it does, no other thread touches the cache and
    the pass returns, the metrics with a file are all yielded, while one
    without a file is yielded only if the throttle allows it. *)
Theorem C5_largest_backlog_first cfg loc w :
  let snap := counts (cache (interfere w)) in
  let metrics := sort_desc snap in
  let r := optimalWriteOrder cfg (write_body cfg) loc w in
  metrics ≡ₚ snap
  /\ StronglySorted desc metrics
  /\ (forall ms w', snapshot cfg w = Ok ms w' -> ms = metrics)
  /\ (forall A B l1 l2,
        metrics = l1 ++ B :: l2 -> A ∈ snap -> (B.2 < A.2)%nat -> A ∈ l1)
  /\ exists ys,
       yields (history (final r)) = yields (history w) ++ ys
       /\ ys `sublist_of` metrics.*1
       /\ (forall A B y1 y2,
             A ∈ snap -> B ∈ snap -> (B.2 < A.2)%nat ->
             ys = y1 ++ B.1 :: y2 ->
             (A.1 ∉ y2) /\ (A.1 ∈ ys -> A.1 ∈ y1))
       /\ ("state" ∉ scope w -> ys = [])
       /\ ("state" ∈ scope w -> producers w = [] ->
           forall loc' w', r = Ok loc' w' ->
           forall A, A ∈ snap -> getFilesystemPath cfg A.1 ∈ files w ->
                     A.1 ∈ ys).
Proof.
  intros snap metrics r.
  split; [apply sort_desc_perm|]. split; [apply sort_desc_sorted|].
  split; [intros ms w'; apply snapshot_ok|].
  split; [intros A B l1 l2; apply sort_desc_larger_first|].
  destruct (pass_yields_sublist cfg loc w) as (ys & Hy & Hsub).
  exists ys. split; [exact Hy|]. split; [exact Hsub|].
  assert (Hnd : NoDup metrics.*1).
  { unfold metrics. rewrite sort_desc_perm. apply counts_NoDup. }
  assert (Hmem : forall A, A ∈ snap -> A ∈ metrics).
  { intros A HA. unfold metrics. rewrite sort_desc_perm. exact HA. }
  split; [|split].
  - intros [a na] [b nb] y1 y2 HA HB Hlt Hsplit.
    apply (yielded_in_order metrics ys a na b nb y1 y2 Hnd
             (sort_desc_sorted snap) Hsub (Hmem _ HA) (Hmem _ HB) Hlt Hsplit).
  - intros Hs. pose proof (pass_unbound_yields cfg loc w Hs) as Hn.
    rewrite Hn in Hy.
    rewrite <- (app_nil_r (yields (history w))) in Hy at 1.
    apply app_inv_head in Hy. symmetry. exact Hy.
  - intros Hstate Hq loc' w' Hr [a na] HA Hfile.
    assert (Hci : cache (interfere w) = cache w)
      by (cbn; apply disturbed_quiet, Hq).
    assert (Ha : a ∈ (sort_desc (counts (cache w))).*1).
    { rewrite <- Hci. apply list_elem_of_fmap. exists (a, na).
      split; [reflexivity|]. apply Hmem, HA. }
    pose proof (pass_yields_files cfg loc w a Hstate Hq Ha Hfile) as Hp.
    unfold r in Hr. rewrite Hr in Hp, Hy. cbn [final] in Hy.
    destruct Hp as (y1 & y2 & Hp). rewrite Hp in Hy.
    apply app_inv_head in Hy. rewrite <- Hy.
    apply elem_of_app. right. left.
Qed.

Lemma C5_witness :
  ("a", 5%nat) ∈ [("a", 5%nat)]
  /\ exists w', optimalWriteOrder (ex_cfg 3 500) (write_body (ex_cfg 3 500))
                 {| updates := 0; lastSecond := 0; dataWritten := false |}
                 ex_two
               = Ok {| updates := 1; lastSecond := 1000; dataWritten := true |}
                    w'
       /\ yields (history w') = ["a"; "b"] /\ cache w' = ∅.
Proof.
  split.
  - destruct (C5_largest_backlog_first (ex_cfg 3 500)
                {| updates := 0; lastSecond := 0; dataWritten := false |}
                ex_two) as (_ & _ & _ & H & _).
    apply (H ("a", 5%nat) ("b", 1%nat) [("a", 5%nat)] []).
    + vm_compute. reflexivity.
    + apply (bool_decide_unpack _). vm_compute. exact I.
    + cbn. lia.
  - eexists. split; [vm_compute; reflexivity|]. split; reflexivity.
Defined.

(** C5, the claim as it is worded: metric [a] has 5 points and no file,
    [b] has 1 point and a file, and the throttle's window is used up.
    Both are in the snapshot and [a] has the larger backlog, but the
    pass yields [b] only: [a] is dropped in its turn and never yielded.
    And in the module as it is written, with files for both, the pass
    ends at the name [state] and yields nothing. *)
Lemma C5_counterexample :
  let cfg := ex_cfg 2 500 in
  let loc := {| updates := 0; lastSecond := 0; dataWritten := false |} in
  (("a", 5%nat) ∈ counts (cache (interfere ex_denied))
   /\ ("b", 1%nat) ∈ counts (cache (interfere ex_denied))
   /\ exists loc' w',
        optimalWriteOrder cfg (write_body cfg) loc ex_denied = Ok loc' w'
        /\ yields (history w') = ["b"]
        /\ cache w' = ∅)
  /\ (("a", 5%nat) ∈ counts (cache (interfere ex_two_as_written))
      /\ ("b", 1%nat) ∈ counts (cache (interfere ex_two_as_written))
      /\ exists w',
           optimalWriteOrder cfg (write_body cfg) loc ex_two_as_written
           = Raise (NameError "state") w'
           /\ yields (history w') = []
           /\ cache w' = cache ex_two_as_written).
Proof.
  cbv zeta. split; (split; [|split]);
    try (apply (bool_decide_unpack _); vm_compute; exact I).
  - eexists _, _. split; [vm_compute; reflexivity|]. split; reflexivity.
  - eexists. split; [vm_compute; reflexivity|]. split; reflexivity.
Qed.

(** ** C3: the rate of creations *)

Lemma tally_nonneg a b ts : 0 <= tally a b ts.
Proof.
  induction ts as [|t ts IH]; cbn [tally]; [lia|].
  destruct ((a <=? t) && (t <? b)); lia.
Qed.

Lemma tally_le a b a' b' ts :
  Forall (fun t => a <= t < b -> a' <= t < b') ts ->
  tally a b ts <= tally a' b' ts.
Proof.
  induction 1 as [|t ts Ht _ IH]; cbn [tally]; [lia|].
  destruct ((a <=? t) && (t <? b)) eqn:E1;
    destruct ((a' <=? t) && (t <? b')) eqn:E2; lia.
Qed.

Lemma tally_cons a b t ts :
  tally a b (t :: ts)
  = (if (a <=? t) && (t <? b) then 1 else 0) + tally a b ts.
Proof. reflexivity. Qed.

Lemma since_cons a t ts :
  since a (t :: ts) = (if a <=? t then 1 else 0) + since a ts.
Proof. reflexivity. Qed.

Lemma since_nonneg a ts : 0 <= since a ts.
Proof.
  induction ts as [|t ts IH]; cbn [since]; [lia|].
  destruct (a <=? t); lia.
Qed.

Lemma since_mono a a' ts : a <= a' -> since a' ts <= since a ts.
Proof.
  intros Ha. induction ts as [|t ts IH]; cbn [since]; [lia|].
  destruct (a <=? t) eqn:E1; destruct (a' <=? t) eqn:E2; lia.
Qed.

Lemma since_none a ts : Forall (fun t => t < a) ts -> since a ts = 0.
Proof.
  induction 1 as [|t ts Ht _ IH]; cbn [since]; [lia|].
  destruct (a <=? t) eqn:E; lia.
Qed.

Lemma tally_since a b ts : tally a b ts <= since a ts.
Proof.
  induction ts as [|t ts IH]; cbn [tally since]; [lia|].
  destruct (a <=? t); destruct (t <? b); cbn; lia.
Qed.

#[local] Instance idle_preorder : PreOrder idle.
Proof.
  split.
  - intros w. unfold idle. conjs; auto; lia.
  - intros w1 w2 w3 (L1 & C1 & H1 & N1) (L2 & C2 & H2 & N2).
    unfold idle. conjs; try congruence; lia.
Qed.

#[local] Instance frozen_preorder : PreOrder frozen.
Proof.
  split.
  - intros w. unfold frozen. conjs; auto.
  - intros w1 w2 w3 (L1 & C1 & H1 & N1) (L2 & C2 & H2 & N2).
    unfold frozen. conjs; congruence.
Qed.

Lemma frozen_idle w w' : frozen w w' -> idle w w'.
Proof. intros (? & ? & ? & ?). unfold idle. conjs; auto; lia. Qed.

Lemma window_open_idle K extra w w' :
  idle w w' -> window_open K extra w -> window_open K extra w'.
Proof.
  intros (EL & Ec & Ecs & En). unfold window_open. cbv zeta.
  rewrite EL, Ec, Ecs.
  intros (H1 & H2 & H3 & H4 & H5 & H6 & H7).
  conjs; auto; try lia.
  eapply Forall_impl; [exact H2|]. cbn. intros; lia.
Qed.

Lemma window_open_frozen K extra w w' :
  frozen w w' -> window_open K extra w -> window_open K extra w'.
Proof. intros H. apply window_open_idle, frozen_idle, H. Qed.

Lemma window_open_spend K w :
  window_open K 1 w -> window_open K 0 w.
Proof.
  unfold window_open. cbv zeta.
  intros (H1 & H2 & H3 & H4 & H5 & H6 & H7).
  conjs; auto; lia.
Qed.

Lemma throttled_idle K w w' : idle w w' -> throttled K w -> throttled K w'.
Proof. apply window_open_idle. Qed.

Lemma wp_final {A} (m : M A) (P : World -> Prop) w :
  wp m (fun _ => P) P w <-> P (final (m w)).
Proof. unfold wp, final. destruct (m w); reflexivity. Qed.

Lemma final_bind {A B} (m : M A) (k : A -> M B) w :
  final (bind m k w)
  = match m w with
    | Ok a w' => final (k a w')
    | Raise _ w' => w'
    | Timeout w' => w'
    end.
Proof. unfold bind. destruct (m w); reflexivity. Qed.

Lemma TICKS_pos : 0 < TICKS.
Proof. reflexivity. Qed.

Lemma MINUTE_pos : 0 < MINUTE.
Proof. reflexivity. Qed.

Lemma next_tick_nonneg w : 0 <= next_tick w.
Proof. unfold next_tick. lia. Qed.

(** The throttle's decision: a creation it allows is booked in the
    window. *)
Lemma creation_throttle_books cfg w allowed wt :
  throttled (MAX_CREATES_PER_MINUTE cfg) w ->
  creation_throttle cfg w = Ok allowed wt ->
  window_open (MAX_CREATES_PER_MINUTE cfg) (if allowed then 1 else 0) wt.
Proof.
  intros Hinv. rewrite creation_throttle_cases. cbv zeta.
  unfold throttled, window_open, MINUTE in Hinv. cbv zeta in Hinv.
  destruct Hinv as (H1 & H2 & H3 & H4 & H5 & H6 & H7).
  set (K := MAX_CREATES_PER_MINUTE cfg) in *.
  set (t := now w + next_tick w).
  assert (Ht : now w <= t) by (unfold t, next_tick; lia).
  clearbody t. pose proof TICKS_pos as HT.
  assert (HB : 1 <= window_budget K) by (unfold window_budget; lia).
  assert (Hall : Forall (fun t' => t' <= t) (creations (history w))).
  { eapply Forall_impl; [exact H2|]. cbn. intros; lia. }
  destruct (60 * TICKS <=? t - lastCreateInterval w) eqn:Ereset.
  - (* the window restarts *)
    intros H. injection H as <- <-.
    unfold window_open.
    cbn [lastCreateInterval createCount history now set_createCount
         set_lastCreateInterval tick set_clock set_now].
    unfold MINUTE in *.
    assert (Z1 : since (t + 1) (creations (history w)) = 0).
    { apply since_none. eapply Forall_impl; [exact Hall|]. cbn.
      intros; lia. }
    pose proof (since_mono (lastCreateInterval w + 1) (t - 60 * TICKS + 1)
                  (creations (history w)) ltac:(lia)) as Z2.
    rewrite Z1. conjs; auto; lia.
  - (* inside the window *)
    intros H. injection H as <- <-.
    unfold window_open.
    cbn [lastCreateInterval createCount history now set_createCount
         set_lastCreateInterval tick set_clock set_now].
    fold K. unfold MINUTE in *.
    destruct (createCount w + 1 <? K) eqn:Eallow.
    + assert (HK : K - 1 <= window_budget K) by (unfold window_budget; lia).
      conjs; auto; lia.
    + conjs; auto; lia.
Qed.

(** What a call of [whisper.create] changes for the throttle: one more
    call in the history, at the time the clock has reached. *)
Lemma whisper_create_world path archiveConfig w :
  let w' := final (whisper_create path archiveConfig w) in
  creations (history w') = (now w + next_tick w) :: creations (history w)
  /\ lastCreateInterval w' = lastCreateInterval w
  /\ createCount w' = createCount w
  /\ now w' = now w + next_tick w.
Proof.
  cbv zeta. unfold whisper_create. cbv zeta.
  change (create_io (tick w)) with (create_io w).
  destruct (hd true (create_io w)); cbn; auto.
Qed.

(** A call of [whisper.create] uses up the booking. *)
Lemma whisper_create_spends K path archiveConfig w :
  window_open K 1 w ->
  window_open K 0 (final (whisper_create path archiveConfig w)).
Proof.
  intros (H1 & H2 & H3 & H4 & H5 & H6 & H7). cbv zeta in *.
  destruct (whisper_create_world path archiveConfig w)
    as (Ecs & EL & Ec & En).
  unfold window_open. cbv zeta. rewrite Ecs, EL, Ec, En.
  pose proof (next_tick_nonneg w) as Hadv.
  set (t := now w + next_tick w) in *.
  assert (Ht : now w <= t) by (unfold t; lia). clearbody t.
  set (L := lastCreateInterval w) in *.
  set (cs := creations (history w)) in *.
  set (B := window_budget K) in *. set (c := createCount w) in *.
  pose proof MINUTE_pos as HM.
  rewrite !since_cons.
  assert (E1 : (L - MINUTE + 1 <=? t) = true) by lia.
  rewrite E1.
  conjs; try lia.
  - constructor; [lia|]. eapply Forall_impl; [exact H2|]. cbn. intros; lia.
  - destruct (L + 1 <=? t); lia.
  - destruct (L + 1 <=? t); lia.
  - intros a. rewrite tally_cons.
    destruct ((a <=? t) && (t <? a + MINUTE)) eqn:Ea;
      [|specialize (H7 a); lia].
    pose proof (tally_since a (a + MINUTE) cs).
    pose proof (since_mono (L - MINUTE + 1) a cs ltac:(lia)). lia.
Qed.

Ltac idle_prim :=
  intros ?w; unfold idle; cbn; conjs; auto;
  try lia; try (unfold next_tick; lia).

Lemma time_sleep_idle d : 0 <= d -> steady idle (time_sleep d).
Proof. intros Hd w. unfold idle. cbn. conjs; auto. lia. Qed.

Lemma commit_idle cfg u loc : steady idle (commit cfg u loc).
Proof.
  unfold commit, rate_limit.
  repeat steady_step; try idle_prim.
  apply time_sleep_idle.
  match goal with |- 0 <= py_int (?t + TICKS) * TICKS - ?t =>
    pose proof (sleep_to_next_second t); lia end.
Qed.

Lemma snapshot_idle cfg : steady idle (snapshot cfg).
Proof.
  intros w. rewrite snapshot_eq. cbv zeta.
  destruct (bool_decide _); [destruct (cacheTooFull w && _)|];
    unfold idle; cbn; unfold next_tick; cbn; conjs; auto; lia.
Qed.

Lemma at_yield_frozen metric dps path b w :
  frozen w (at_yield metric dps path b w).
Proof. unfold frozen. cbn. auto. Qed.

Lemma contention_frozen metric w : frozen w (contention metric w).
Proof. unfold frozen. cbn. auto. Qed.

Lemma popped_frozen metric w : frozen w (popped metric w).
Proof.
  destruct (popped_rest metric w)
    as (Hh & _ & _ & _ & Hn & Hc & HL & _).
  unfold frozen. rewrite Hh, Hn, Hc, HL. auto.
Qed.

(** The step before the commit: the creation it makes was booked. *)
Lemma ensure_file_throttled K u w :
  (if u_dbFileExists u then throttled K w else window_open K 1 w) ->
  throttled K (final (ensure_file u w)).
Proof.
  unfold ensure_file, throttled. destruct (u_dbFileExists u); [auto|].
  intros Hopen. unfold create_file. rewrite final_bind. cbn [read_schemas].
  destruct (find _ (schemas w)) as [schema|];
    [|apply window_open_spend, Hopen].
  rewrite final_bind. cbn [log_write].
  set (w1 := set_log _ w).
  assert (H1 : window_open K 1 w1).
  { eapply window_open_frozen; [|exact Hopen]. unfold frozen. cbn. auto. }
  destruct (schema_archives schema) as [|a l];
    [apply window_open_spend, H1|].
  rewrite final_bind. cbn [emit]. rewrite final_bind. cbn [log_write].
  match goal with |- window_open _ _ (final (_ ?x)) => set (w2 := x) end.
  assert (H2 : window_open K 1 w2).
  { eapply window_open_frozen; [|exact H1]. unfold frozen. cbn. auto. }
  pose proof (whisper_create_spends K (u_dbFilePath u) (a :: l) w2 H2) as H3.
  rewrite final_bind.
  destruct (whisper_create (u_dbFilePath u) (a :: l) w2)
    as [[] w3|e w3|w3]; cbn [final] in H3; exact H3.
Qed.

Lemma write_body_throttled cfg K u loc w :
  (if u_dbFileExists u then throttled K w else window_open K 1 w) ->
  throttled K (final (write_body cfg u loc w)).
Proof.
  intros H. unfold write_body. cbv zeta. rewrite final_bind.
  pose proof (ensure_file_throttled K u w H) as He.
  destruct (ensure_file u w) as [[] w1| |]; cbn [final] in He; try exact He.
  eapply throttled_idle; [apply commit_idle|exact He].
Qed.

(** A turn of the loop keeps the invariant of the throttle. *)
Lemma visit_throttled cfg metric n loc w :
  throttled (MAX_CREATES_PER_MINUTE cfg) w ->
  throttled (MAX_CREATES_PER_MINUTE cfg)
    (final (visit cfg (write_body cfg) (metric, n) loc w)).
Proof.
  intros Hinv. set (K := MAX_CREATES_PER_MINUTE cfg) in *.
  destruct (visit_cases cfg (write_body cfg) metric n loc w)
    as (allowed & wt & Hthr & ->).
  pose proof (creation_throttle_books cfg w allowed wt Hinv Hthr) as Hbook.
  fold K in Hbook.
  set (b := bool_decide _). clearbody b.
  destruct b; cbn [orb].
  - destruct (cache (interfere w) !! metric) as [dps|].
    + apply write_body_throttled. cbn [u_dbFileExists].
      eapply throttled_idle; [|exact Hinv].
      apply frozen_idle, at_yield_frozen.
    + cbn [final]. eapply throttled_idle; [|exact Hinv].
      apply frozen_idle, contention_frozen.
  - destruct allowed.
    + destruct (cache (interfere wt) !! metric) as [dps|].
      * apply write_body_throttled. cbn [u_dbFileExists].
        eapply window_open_frozen; [|exact Hbook]. apply at_yield_frozen.
      * cbn [final]. apply window_open_spend.
        eapply window_open_frozen; [|exact Hbook]. apply contention_frozen.
    + cbn [final].
      eapply window_open_frozen; [|exact Hbook]. apply popped_frozen.
Qed.

Lemma pass_throttled cfg loc w :
  throttled (MAX_CREATES_PER_MINUTE cfg) w ->
  throttled (MAX_CREATES_PER_MINUTE cfg)
    (final (optimalWriteOrder cfg (write_body cfg) loc w)).
Proof.
  intros Hinv. unfold optimalWriteOrder. rewrite final_bind.
  pose proof (throttled_idle _ _ _ (snapshot_idle cfg w) Hinv) as Hs.
  destruct (snapshot cfg w) as [metrics w1| |]; cbn [final] in Hs;
    try exact Hs.
  apply wp_final.
  apply (wp_for_each metrics (visit cfg (write_body cfg))
           (fun _ => throttled (MAX_CREATES_PER_MINUTE cfg))
           (throttled (MAX_CREATES_PER_MINUTE cfg))); [|exact Hs].
  intros [metric n] s w0 _ H0. apply wp_final, visit_throttled, H0.
Qed.

Lemma drain_throttled cfg fuel loc w :
  throttled (MAX_CREATES_PER_MINUTE cfg) w ->
  throttled (MAX_CREATES_PER_MINUTE cfg) (final (drain cfg fuel loc w)).
Proof.
  revert loc w. induction fuel as [|fuel IH]; intros loc w Hinv;
    [exact Hinv|].
  cbn [drain]. rewrite final_bind. unfold MetricCache_bool. cbv zeta.
  assert (H0 : throttled (MAX_CREATES_PER_MINUTE cfg) (interfere w)).
  { eapply throttled_idle; [|exact Hinv]. unfold idle. cbn.
    conjs; auto. lia. }
  destruct (negb _); [|exact H0].
  rewrite final_bind.
  pose proof (pass_throttled cfg
                {| updates := updates loc; lastSecond := lastSecond loc;
                   dataWritten := false |} (interfere w) H0) as H1.
  destruct (optimalWriteOrder cfg (write_body cfg) _ (interfere w))
    as [loc1 w1| |]; cbn [final] in H1; try exact H1.
  rewrite final_bind.
  assert (H2 : throttled (MAX_CREATES_PER_MINUTE cfg)
                 (final (when (negb (dataWritten loc1))
                           (time_sleep (TICKS / 10)) w1))).
  { eapply throttled_idle; [|exact H1].
    apply steady_when; [apply _|]. apply time_sleep_idle. done. }
  destruct (when _ _ w1) as [[] w2| |]; cbn [final] in H2; try exact H2.
  apply IH, H2.
Qed.

Lemma writeForever_throttled cfg inner fuel w :
  throttled (MAX_CREATES_PER_MINUTE cfg) w ->
  throttled (MAX_CREATES_PER_MINUTE cfg)
    (final (writeForever cfg inner fuel w)).
Proof.
  revert w. induction fuel as [|fuel IH]; intros w Hinv; [exact Hinv|].
  cbn [writeForever]. rewrite final_bind. cbn [reactor_running].
  set (w0 := set_running _ w).
  assert (H0 : throttled (MAX_CREATES_PER_MINUTE cfg) w0).
  { eapply throttled_idle; [|exact Hinv]. unfold idle. cbn.
    conjs; auto. lia. }
  destruct (hd false (running w)); [|exact H0].
  rewrite final_bind. unfold try_except, writeCachedDataPoints.
  pose proof (drain_throttled cfg inner
                {| updates := 0; lastSecond := 0; dataWritten := false |}
                w0 H0) as H1.
  assert (Hnext : forall w1, throttled (MAX_CREATES_PER_MINUTE cfg) w1 ->
            throttled (MAX_CREATES_PER_MINUTE cfg)
              (final (bind (time_sleep TICKS)
                        (fun _ => writeForever cfg inner fuel) w1))).
  { intros w1 Hw1. rewrite final_bind. cbn [time_sleep]. apply IH.
    eapply throttled_idle; [|exact Hw1]. unfold idle. cbn.
    conjs; auto. pose proof TICKS_pos. lia. }
  destruct (drain cfg inner _ w0) as [[] w1|e w1|w1]; cbn [final] in H1.
  - apply Hnext, H1.
  - unfold log_write. apply Hnext.
    eapply throttled_idle; [|exact H1]. unfold idle. cbn. conjs; auto. lia.
  - exact H1.
Qed.

Lemma throttled_bounds K w :
  throttled K w ->
  (forall a, tally a (a + MINUTE) (creations (history w))
             <= 2 * window_budget K)
  /\ since (lastCreateInterval w + 1) (creations (history w))
     <= window_budget K.
Proof.
  intros (_ & _ & _ & H4 & _ & _ & H7). cbv zeta in *.
  split; [exact H7|lia].
Qed.

Lemma loaded_throttled K w :
  history w = [] -> lastCreateInterval w = 0 -> createCount w = 0 ->
  0 <= now w -> throttled K w.
Proof.
  intros Hh HL Hc Hn. unfold throttled, window_open. cbv zeta.
  rewrite Hh, HL, Hc. cbn.
  assert (HB : 1 <= window_budget K) by (unfold window_budget; lia).
  conjs; first [lia | constructor | intros; lia].
Qed.

(** *** One window *)

#[local] Instance same_window_preorder K : PreOrder (same_window K).
Proof.
  split.
  - intros w. unfold same_window. split; [lia|]. intros _. lia.
  - intros w1 w2 w3 [L12 H12] [L23 H23]. unfold same_window.
    split; [lia|]. intros E.
    assert (E2 : lastCreateInterval w2 = lastCreateInterval w1) by lia.
    assert (E3 : lastCreateInterval w3 = lastCreateInterval w2) by lia.
    specialize (H12 E2). specialize (H23 E3). lia.
Qed.

Lemma idle_same_window K w w' : idle w w' -> same_window K w w'.
Proof.
  intros (EL & Ec & Ecs & _). unfold same_window, created.
  rewrite EL, Ec, Ecs. split; [lia|]. intros _. lia.
Qed.

Lemma steady_idle_same_window {A} K (m : M A) :
  steady idle m -> steady (same_window K) m.
Proof. intros H w. apply idle_same_window, H. Qed.

(** The step before the commit makes one call of [whisper.create] at
    most, and none for a file that exists. *)
Lemma ensure_file_created u w :
  let w' := final (ensure_file u w) in
  lastCreateInterval w' = lastCreateInterval w
  /\ createCount w' = createCount w
  /\ created w' <= created w + (if u_dbFileExists u then 0 else 1).
Proof.
  cbv zeta. unfold ensure_file.
  destruct (u_dbFileExists u); [unfold created, creations; cbn; conjs; auto; lia|].
  unfold create_file. rewrite final_bind. cbn [read_schemas].
  destruct (find _ (schemas w)) as [schema|]; [|unfold created, creations; cbn; conjs; auto; lia].
  rewrite final_bind. cbn [log_write].
  destruct (schema_archives schema) as [|a l]; [unfold created, creations; cbn; conjs; auto; lia|].
  rewrite final_bind. cbn [emit]. rewrite final_bind. cbn [log_write].
  rewrite final_bind.
  match goal with |- context [whisper_create ?p ?c ?x] =>
    destruct (whisper_create_world p c x) as (Ecs & EL & Ec & _);
    set (w2 := x) in *
  end.
  assert (Hafter : forall w3, idle (final (whisper_create (u_dbFilePath u)
                                             (a :: l) w2)) w3 ->
            lastCreateInterval w3 = lastCreateInterval w
            /\ createCount w3 = createCount w
            /\ created w3 <= created w + 1).
  { assert (E2 : creations (history w2) = creations (history w)
                  /\ lastCreateInterval w2 = lastCreateInterval w
                  /\ createCount w2 = createCount w)
      by (conjs; reflexivity).
    destruct E2 as (Ecs2 & EL2 & Ec2).
    intros w3 (EL3 & Ec3 & Ecs3 & _). unfold created.
    rewrite EL3, Ec3, Ecs3, EL, Ec, Ecs, Ecs2, EL2, Ec2.
    cbn [length]. conjs; auto; lia. }
  destruct (whisper_create (u_dbFilePath u) (a :: l) w2)
    as [[] w3|e w3|w3] eqn:Ecreate; cbn [final] in Hafter |- *;
    try (apply Hafter; reflexivity).
  apply Hafter. unfold createMetaFile, bind. cbn.
  unfold idle. cbn. conjs; auto; lia.
Qed.

Lemma write_body_created cfg u loc w :
  let w' := final (write_body cfg u loc w) in
  lastCreateInterval w' = lastCreateInterval w
  /\ createCount w' = createCount w
  /\ created w' <= created w + (if u_dbFileExists u then 0 else 1).
Proof.
  cbv zeta. unfold write_body. cbv zeta. rewrite final_bind.
  pose proof (ensure_file_created u w) as He. cbv zeta in He.
  destruct (ensure_file u w) as [[] w1| |]; cbn [final] in He; try exact He.
  destruct He as (EL & Ec & Ecs).
  match goal with |- context [final (commit ?c ?u ?l ?x)] =>
    destruct (commit_idle c u l x) as (EL2 & Ec2 & Ecs2 & _)
  end.
  unfold created in *. rewrite EL2, Ec2, Ecs2. auto.
Qed.

Lemma creations_yielded metric dps path e h :
  creations (Yielded metric dps path e :: h) = creations h.
Proof. reflexivity. Qed.

(** Reduces the fields of a world that is given by its setters. *)
Ltac fields :=
  cbn [lastCreateInterval createCount history now cache producers
       set_lastCreateInterval set_createCount set_history set_now set_clock
       set_cache set_producers set_log tick interfere at_yield contention
       final u_dbFileExists] in *.

(** A turn of the loop, for the window it starts in. *)
Lemma visit_same_window cfg metric n loc w :
  same_window (MAX_CREATES_PER_MINUTE cfg) w
    (final (visit cfg (write_body cfg) (metric, n) loc w)).
Proof.
  set (K := MAX_CREATES_PER_MINUTE cfg).
  destruct (visit_cases cfg (write_body cfg) metric n loc w)
    as (allowed & wt & Hthr & ->).
  set (b := bool_decide _). clearbody b.
  assert (Hyield : forall dps (e : bool) w1,
            lastCreateInterval w <= lastCreateInterval w1 ->
            (lastCreateInterval w1 = lastCreateInterval w ->
             createCount w <= createCount w1
             /\ created w1 + (if e then 0 else 1)
                <= created w
                   + Z.max 0 (Z.min (createCount w1) (K - 1)
                              - createCount w)) ->
            same_window K w
              (final (write_body cfg
                        {| u_metric := metric; u_datapoints := dps;
                           u_dbFilePath := getFilesystemPath cfg metric;
                           u_dbFileExists := e |} loc
                        (at_yield metric dps (getFilesystemPath cfg metric)
                           e w1)))).
  { intros dps e w1 HL1 H1.
    match goal with |- context [write_body ?c ?u ?l ?x] =>
      destruct (write_body_created c u l x) as (EL & Ec & Ecs)
    end.
    unfold same_window. rewrite EL, Ec.
    unfold created in *. fields. rewrite creations_yielded in Ecs.
    split; [exact HL1|].
    intros E. specialize (H1 E). destruct e; lia. }
  pose proof (next_tick_nonneg w) as Hadv. pose proof TICKS_pos as HT.
  destruct b; cbn [orb].
  - destruct (cache (interfere w) !! metric) as [dps|].
    + apply Hyield; [lia|]. intros _. lia.
    + cbn [final]. apply idle_same_window, frozen_idle, contention_frozen.
  - rewrite creation_throttle_cases in Hthr. cbv zeta in Hthr. fold K in Hthr.
    destruct (60 * TICKS <=? now w + next_tick w - lastCreateInterval w)
      eqn:Ereset.
    + (* the turn opens a window *)
      injection Hthr as <- <-. cbn [orb].
      destruct (cache (interfere _) !! metric) as [dps|].
      * apply Hyield; fields; [lia|]. intros E. lia.
      * unfold same_window. fields. split; [lia|]. intros E. lia.
    + injection Hthr as <- <-.
      destruct (createCount w + 1 <? K) eqn:Eallow; cbn [orb].
      * destruct (cache (interfere _) !! metric) as [dps|].
        -- apply Hyield; unfold created; fields; [lia|]. intros _. lia.
        -- unfold same_window, created. fields. split; [lia|]. intros _. lia.
      * cbn [final].
        match goal with |- same_window _ _ (popped _ ?x) =>
          destruct (popped_rest metric x)
            as (Hh & _ & _ & _ & _ & Hc & HL & _)
        end.
        unfold same_window, created. rewrite Hh, Hc, HL. fields.
        split; [lia|]. intros _. lia.
Qed.

Lemma snapshot_same_window cfg K : steady (same_window K) (snapshot cfg).
Proof. apply steady_idle_same_window, snapshot_idle. Qed.

Lemma pass_same_window cfg loc :
  steady (same_window (MAX_CREATES_PER_MINUTE cfg))
    (optimalWriteOrder cfg (write_body cfg) loc).
Proof.
  unfold optimalWriteOrder.
  refine (steady_bind _ _ _ _ _); [apply snapshot_same_window|].
  intros metrics.
  refine (steady_for_each _ _ _ _ _).
  intros [metric n] s w. apply visit_same_window.
Qed.

Lemma drain_same_window cfg fuel :
  forall loc, steady (same_window (MAX_CREATES_PER_MINUTE cfg))
                (drain cfg fuel loc).
Proof.
  induction fuel as [|fuel IH]; intros loc; [intros w; reflexivity|].
  change (drain cfg (S fuel) loc)
    with (bind MetricCache_bool (fun nonempty : bool =>
            if nonempty then
              bind (optimalWriteOrder cfg (write_body cfg)
                      {| updates := updates loc;
                         lastSecond := lastSecond loc;
                         dataWritten := false |})
                (fun loc' =>
                   bind (when (negb (dataWritten loc'))
                           (time_sleep (TICKS / 10)))
                     (fun _ => drain cfg fuel loc'))
            else ret tt)).
  refine (steady_bind _ _ _ _ _).
  - apply steady_idle_same_window. intros w. unfold idle. cbn.
    conjs; auto. lia.
  - intros [|]; [|apply steady_ret; apply _].
    refine (steady_bind _ _ _ _ _); [apply pass_same_window|].
    intros loc'. refine (steady_bind _ _ _ _ _); [|intros _; apply IH].
    apply steady_when; [apply _|].
    apply steady_idle_same_window, time_sleep_idle. done.
Qed.

Lemma writeForever_same_window cfg inner fuel :
  steady (same_window (MAX_CREATES_PER_MINUTE cfg))
    (writeForever cfg inner fuel).
Proof.
  induction fuel as [|fuel IH]; [intros w; reflexivity|].
  change (writeForever cfg inner (S fuel))
    with (bind reactor_running (fun r : bool =>
            if r then
              bind (try_except (writeCachedDataPoints cfg inner)
                      (fun e => log_write (Err e)))
                (fun _ => bind (time_sleep TICKS)
                            (fun _ => writeForever cfg inner fuel))
            else ret tt)).
  refine (steady_bind _ _ _ _ _).
  - apply steady_idle_same_window. intros w. unfold idle. cbn.
    conjs; auto. lia.
  - intros [|]; [|apply steady_ret; apply _].
    refine (steady_bind _ _ _ _ _).
    + refine (steady_try_except _ _ _ _ _).
      * unfold writeCachedDataPoints. apply drain_same_window.
      * intros e. apply steady_idle_same_window. intros w. unfold idle.
        cbn. conjs; auto. lia.
    + intros _. refine (steady_bind _ _ _ _ _); [|intros _; exact IH].
      apply steady_idle_same_window, time_sleep_idle.
      pose proof TICKS_pos. lia.
Qed.

Lemma same_window_bound K w w' :
  same_window K w w' ->
  lastCreateInterval w' = lastCreateInterval w ->
  created w' <= created w + Z.max 0 (K - 1 - createCount w).
Proof. intros [_ H] E. specialize (H E). lia. Qed.

Lemma final_for_each_cons {A S} (x : A) (rest : list A)
    (body : A -> S -> M S) s w :
  final (for_each (x :: rest) body s w)
  = match body x s w with
    | Ok s' w' => final (for_each rest body s' w')
    | Raise _ w' => w'
    | Timeout w' => w'
    end.
Proof. cbn [for_each]. apply final_bind. Qed.

(** What the body of the loop, run at the [yield], does to the throttle's
    state. *)
Lemma yield_created cfg metric dps (e : bool) loc w1 :
  let w' := final (write_body cfg
                     {| u_metric := metric; u_datapoints := dps;
                        u_dbFilePath := getFilesystemPath cfg metric;
                        u_dbFileExists := e |} loc
                     (at_yield metric dps (getFilesystemPath cfg metric)
                        e w1)) in
  lastCreateInterval w' = lastCreateInterval w1
  /\ createCount w' = createCount w1
  /\ created w' <= created w1 + (if e then 0 else 1).
Proof.
  cbv zeta.
  match goal with |- context [write_body ?c ?u ?l ?x] =>
    destruct (write_body_created c u l x) as (EL & Ec & Ecs)
  end.
  rewrite EL, Ec. split; [reflexivity|]. split; [reflexivity|].
  exact Ecs.
Qed.

(** The turn that opens a window. *)
Lemma opening_turn cfg metric n loc w :
  getFilesystemPath cfg metric ∉ files w ->
  MINUTE <= now w + next_tick w - lastCreateInterval w ->
  forall r, r = visit cfg (write_body cfg) (metric, n) loc w ->
  lastCreateInterval (final r) = now w + next_tick w
  /\ createCount (final r) = 1
  /\ created (final r) <= created w + 1.
Proof.
  intros Hfile Hopen r Hr.
  destruct (visit_cases cfg (write_body cfg) metric n loc w)
    as (allowed & wt & Hthr & Hv).
  rewrite Hv in Hr. clear Hv.
  rewrite bool_decide_eq_false_2 in Hr by exact Hfile.
  rewrite creation_throttle_cases in Hthr. cbv zeta in Hthr.
  unfold MINUTE in Hopen.
  assert ((60 * TICKS <=? now w + next_tick w - lastCreateInterval w)
          = true) as E by lia.
  rewrite E in Hthr. injection Hthr as <- Hwt.
  assert (Ht : lastCreateInterval wt = now w + next_tick w
               /\ createCount wt = 1 /\ created wt = created w)
    by (rewrite <- Hwt; conjs; reflexivity).
  clear Hwt. destruct Ht as (HLt & Hct & Hcst).
  cbn [orb] in Hr.
  destruct (cache (interfere wt) !! metric) as [dps|].
  - destruct (yield_created cfg metric dps false loc wt) as (EL & Ec & Ecs).
    rewrite <- Hr in EL, Ec, Ecs. rewrite EL, Ec. conjs; auto; lia.
  - rewrite Hr. unfold final, contention.
    assert (Hc : lastCreateInterval
                   (set_log (Msg_contention metric :: log (interfere wt))
                      (interfere wt)) = lastCreateInterval wt
                 /\ createCount
                      (set_log (Msg_contention metric :: log (interfere wt))
                         (interfere wt)) = createCount wt
                 /\ created
                      (set_log (Msg_contention metric :: log (interfere wt))
                         (interfere wt)) = created wt)
      by (conjs; reflexivity).
    destruct Hc as (-> & -> & ->). conjs; auto; lia.
Qed.

Lemma loop_same_window cfg metrics loc w :
  same_window (MAX_CREATES_PER_MINUTE cfg) w
    (final (for_each metrics (visit cfg (write_body cfg)) loc w)).
Proof.
  refine (steady_for_each _ _ _ _ _ w).
  intros [metric n] s w1. apply visit_same_window.
Qed.

(** The turn that opens a window and the turns after it, as long as the
    window stays. *)
Lemma window_from_its_opening cfg metric n rest loc w :
  getFilesystemPath cfg metric ∉ files w ->
  MINUTE <= now w + next_tick w - lastCreateInterval w ->
  let w' := final (for_each ((metric, n) :: rest) (visit cfg (write_body cfg))
                     loc w) in
  lastCreateInterval w' = now w + next_tick w ->
  created w' <= created w + window_budget (MAX_CREATES_PER_MINUTE cfg).
Proof.
  intros Hfile Hopen. cbv zeta. rewrite final_for_each_cons.
  destruct (opening_turn cfg metric n loc w Hfile Hopen _ eq_refl)
    as (HL1 & Hc1 & Hcs1).
  destruct (visit cfg (write_body cfg) (metric, n) loc w)
    as [loc1 w1|e w1|w1];
    try (intros _; unfold window_budget; unfold final in Hcs1; lia).
  unfold final in HL1, Hc1, Hcs1. intros HL.
  pose proof (loop_same_window cfg rest loc1 w1) as Hseg.
  apply same_window_bound in Hseg; [|lia].
  rewrite Hc1 in Hseg. unfold window_budget. lia.
Qed.

(** C3 (as the code has it).  The module is just loaded.  The throttle
    counts the attempts to create a file in windows: a window opens at a
    reading of the throttle at least 60 seconds after the one that opened
    the last window, the opening turn is allowed its creation, and after
    it an attempt is allowed while the count of the window, the attempt
    included, is below K.  So a window, however long it lasts and
    whatever is pending, allows max(1, K - 1) calls of [whisper.create]
    at most.  An interval of 60 seconds can hold the calls of two
    windows, and holds at most 2 max(1, K - 1) calls.  A metric the
    throttle denies is popped from the cache in that turn and not
    yielded. *)
Theorem C3_creations_per_window cfg w :
  history w = [] -> lastCreateInterval w = 0 -> createCount w = 0 ->
  0 <= now w ->
  let K := MAX_CREATES_PER_MINUTE cfg in
  let B := window_budget K in
  (forall inner fuel a,
     tally a (a + MINUTE)
       (creations (history (final (writeForever cfg inner fuel w))))
     <= 2 * B)
  /\ (forall fuel a,
        tally a (a + MINUTE)
          (creations (history (final (writeCachedDataPoints cfg fuel w))))
        <= 2 * B)
  /\ (forall w0 inner fuel,
        let w' := final (writeForever cfg inner fuel w0) in
        lastCreateInterval w' = lastCreateInterval w0 ->
        created w' <= created w0 + Z.max 0 (K - 1 - createCount w0))
  /\ (forall w0 metrics loc,
        let w' := final (for_each metrics (visit cfg (write_body cfg))
                           loc w0) in
        lastCreateInterval w' = lastCreateInterval w0 ->
        created w' <= created w0 + Z.max 0 (K - 1 - createCount w0))
  /\ (forall w0 metric n rest loc,
        getFilesystemPath cfg metric ∉ files w0 ->
        MINUTE <= now w0 + next_tick w0 - lastCreateInterval w0 ->
        let w' := final (for_each ((metric, n) :: rest)
                           (visit cfg (write_body cfg)) loc w0) in
        lastCreateInterval w' = now w0 + next_tick w0 ->
        created w' <= created w0 + B)
  /\ (forall S (yield_ : write_unit -> S -> M S) metric n s w0 wt,
        getFilesystemPath cfg metric ∉ files w0 ->
        creation_throttle cfg w0 = Ok false wt ->
        exists w2, visit cfg yield_ (metric, n) s w0 = Ok s w2
                   /\ cache w2 !! metric = None
                   /\ history w2 = history w0).
Proof.
  intros Hh HL Hc Hn K B.
  pose proof (loaded_throttled K w Hh HL Hc Hn) as Hinv.
  conjs.
  - intros inner fuel. apply throttled_bounds.
    apply writeForever_throttled, Hinv.
  - intros fuel. apply throttled_bounds.
    unfold writeCachedDataPoints. apply drain_throttled, Hinv.
  - intros w0 inner fuel. cbv zeta. apply same_window_bound.
    apply writeForever_same_window.
  - intros w0 metrics loc. cbv zeta. apply same_window_bound.
    apply loop_same_window.
  - intros w0 metric n rest loc. apply window_from_its_opening.
  - intros S yield_ metric n s w0 wt Hfile Hthr.
    destruct (visit_denied cfg yield_ metric n s w0 wt Hfile Hthr)
      as (w2 & Hv & Hc2 & Hh2 & _).
    exists w2. split; [exact Hv|]. rewrite Hc2, Hh2. split.
    + apply lookup_delete_eq.
    + eapply creation_throttle_history, Hthr.
Qed.

Lemma C3_witness :
  let w' := final (writeCachedDataPoints (ex_cfg 4 500) 2 ex_burst) in
  creations (history w')
  = [1060200000; 1060100000; 1060000000; 1059000000; 1058000000; 1000500000]
  /\ tally (1000500000) (1000500000 + MINUTE) (creations (history w'))
     <= 2 * window_budget 4.
Proof.
  cbv zeta. split; [vm_compute; reflexivity|].
  destruct (C3_creations_per_window (ex_cfg 4 500) ex_burst)
    as (_ & H & _); [reflexivity|reflexivity|reflexivity
                    |vm_compute; discriminate|].
  apply (H 2%nat).
Defined.

(** C3, the claim as it is worded: the limit is 4 creations per minute
    and six new metrics are pending.  The window opened at second 1000
    allows three creations: the first is called half a second later, the
    others at seconds 1058 and 1059.  At second 1060 a new window opens
    and allows three more within two tenths of a second.  The 60 seconds
    from second 1000.5 on hold 6 calls of [whisper.create], two more
    than the limit, and the 60 seconds from second 1058 on hold 5. *)
Lemma C3_counterexample :
  let cfg := ex_cfg 4 500 in
  let loc := {| updates := 0; lastSecond := 0; dataWritten := false |} in
  MAX_CREATES_PER_MINUTE cfg = 4
  /\ (exists loc' w',
        for_each [("m1", 6%nat); ("m2", 5%nat); ("m3", 4%nat);
                  ("m4", 3%nat); ("m5", 2%nat); ("m6", 1%nat)]
          (visit cfg (write_body cfg)) loc ex_burst_loop = Ok loc' w'
        /\ tally 1000500000 (1000500000 + MINUTE)
             (creations (history w')) = 6)
  /\ (exists w',
        writeCachedDataPoints cfg 2 ex_burst = Ok tt w'
        /\ creations (history w')
           = [1060200000; 1060100000; 1060000000; 1059000000; 1058000000;
              1000500000]
        /\ tally 1000500000 (1000500000 + MINUTE)
             (creations (history w')) = 6
        /\ tally (1058 * TICKS) (1058 * TICKS + MINUTE)
             (creations (history w')) = 5).
Proof.
  cbv zeta. conjs.
  - reflexivity.
  - eexists _, _. split; [vm_compute; reflexivity|]. vm_compute. reflexivity.
  - eexists. split; [vm_compute; reflexivity|].
    conjs; vm_compute; reflexivity.
Qed.

(** ** C2: the rate of commits *)

#[local] Instance unhurried_preorder : PreOrder unhurried.
Proof.
  split.
  - intros w. unfold unhurried. split; [reflexivity|lia].
  - intros w1 w2 w3 [H1 N1] [H2 N2]. unfold unhurried.
    split; [congruence|lia].
Qed.

Lemma py_int_second t s :
  0 <= t -> (py_int t = s <-> s * TICKS <= t < (s + 1) * TICKS).
Proof.
  intros Ht. unfold py_int, TICKS.
  Z.to_euclidean_division_equations. lia.
Qed.

Lemma commits_in_unhurried s w w' :
  unhurried w w' -> commits_in s w' = commits_in s w.
Proof. intros [H _]. unfold commits_in. rewrite H. reflexivity. Qed.

Lemma within_budget_unhurried M w0 w w' :
  unhurried w w' -> within_budget M w0 w -> within_budget M w0 w'.
Proof.
  intros Hu H s. rewrite (commits_in_unhurried s w w' Hu). apply H.
Qed.

Lemma limited_unhurried M w0 loc w w' :
  unhurried w w' -> limited M w0 loc w -> limited M w0 loc w'.
Proof.
  intros Hu (H1 & H2 & H3 & H4 & H5 & H6 & H7).
  pose proof Hu as [_ Hn].
  unfold limited. rewrite (commits_in_unhurried _ w w' Hu).
  conjs; try lia;
    try (intros s Hs; rewrite (commits_in_unhurried _ w w' Hu); auto);
    try (eapply within_budget_unhurried; eassumption).
Qed.

Lemma limited_dataWritten M w0 loc b w :
  limited M w0 loc w ->
  limited M w0 {| updates := updates loc; lastSecond := lastSecond loc;
                  dataWritten := b |} w.
Proof. intros H. exact H. Qed.

Lemma limited_within M w0 loc w : limited M w0 loc w -> within_budget M w0 w.
Proof. intros (_ & _ & _ & _ & _ & _ & H). exact H. Qed.

Lemma limited_start M w : 0 <= now w ->
  limited M w {| updates := 0; lastSecond := 0; dataWritten := false |} w.
Proof.
  intros Hn. unfold limited, within_budget, second_budget.
  cbn [updates lastSecond].
  conjs; try lia; intros; lia.
Qed.

(** The limiter after a commit that returned at [t2], in a world [w3]
    whose history has that commit on top of those of [w]. *)
Lemma rate_limit_limited cfg w0 loc w t2 w3 :
  let M := MAX_UPDATES_PER_SECOND cfg in
  limited M w0 loc w ->
  now w <= t2 -> now w3 = t2 ->
  commits (history w3) = t2 :: commits (history w) ->
  exists loc' w',
    rate_limit cfg t2 loc w3 = Ok loc' w' /\ limited M w0 loc' w'.
Proof.
  intros M (H1 & H2 & H3 & H4 & H5 & H6 & H7) Hle Hn3 Hcs.
  assert (Hin : forall s (w' : World),
            commits (history w') = commits (history w3) ->
            commits_in s w'
            = (if (s * TICKS <=? t2) && (t2 <? (s + 1) * TICKS)
               then 1 else 0) + commits_in s w).
  { intros s w' E. unfold commits_in. rewrite E, Hcs. apply tally_cons. }
  assert (Ht2 : 0 <= t2) by lia.
  pose proof (proj1 (py_int_second t2 (py_int t2) Ht2) eq_refl) as Hs2.
  assert (Hs2' : py_int (t2 + TICKS) = py_int t2 + 1).
  { apply py_int_second; [pose proof TICKS_pos; lia|]. lia. }
  set (s2 := py_int t2) in *.
  unfold rate_limit. cbv zeta. fold s2. fold M.
  unfold within_budget, second_budget in *.
  destruct (s2 =? lastSecond loc) eqn:Esec; cbn [negb].
  - (* another commit in the second of the last one *)
    apply Z.eqb_eq in Esec.
    assert (HU : updates loc + 1 <= Z.max 1 M).
    { destruct (Z_lt_le_dec (updates loc) 1) as [|HU1]; [lia|].
      destruct (Z_lt_le_dec (updates loc) M) as [|HUM]; [lia|].
      specialize (H4 HU1 HUM). lia. }
    assert (Hgoal : forall w' : World,
              commits (history w') = commits (history w3) ->
              t2 <= now w' ->
              (M <= updates loc + 1 -> (s2 + 1) * TICKS <= now w') ->
              limited M w0
                {| updates := updates loc + 1; lastSecond := lastSecond loc;
                   dataWritten := dataWritten loc |} w').
    { intros w' E Hn' Hslept. unfold limited, within_budget, second_budget.
      cbn [updates lastSecond]. rewrite <- Esec in *.
      conjs; try lia.
      - intros s Hs. rewrite (Hin s w' E).
        destruct ((s * TICKS <=? t2) && (t2 <? (s + 1) * TICKS)) eqn:Eb;
          [unfold TICKS in *; lia|].
        rewrite <- H5 by lia. lia.
      - rewrite (Hin s2 w' E).
        destruct ((s2 * TICKS <=? t2) && (t2 <? (s2 + 1) * TICKS)) eqn:Eb;
          lia.
      - intros s. rewrite (Hin s w' E).
        destruct ((s * TICKS <=? t2) && (t2 <? (s + 1) * TICKS)) eqn:Eb.
        + assert (s = s2) by (unfold TICKS in *; lia). subst s.
          lia.
        + specialize (H7 s). lia. }
    unfold bind, when.
    destruct (M <=? updates loc + 1) eqn:EM.
    + eexists _, _. split; [reflexivity|]. apply Hgoal.
      * reflexivity.
      * cbn. pose proof (sleep_to_next_second t2). lia.
      * intros _. cbn. rewrite Hn3, Hs2'. lia.
    + eexists _, _. split; [reflexivity|]. apply Hgoal.
      * reflexivity.
      * lia.
      * intros. lia.
  - (* the first commit of a new second *)
    apply Z.eqb_neq in Esec.
    assert (Hlater : lastSecond loc < s2) by (unfold TICKS in *; lia).
    eexists _, _. split; [reflexivity|].
    unfold limited, within_budget, second_budget. cbn [updates lastSecond].
    conjs; try lia.
    + intros s Hs. rewrite (Hin s w3 eq_refl).
      destruct ((s * TICKS <=? t2) && (t2 <? (s + 1) * TICKS)) eqn:Eb;
        [unfold TICKS in *; lia|].
      rewrite <- H5 by lia. lia.
    + rewrite (Hin s2 w3 eq_refl). rewrite <- (H5 s2 Hlater).
      destruct ((s2 * TICKS <=? t2) && (t2 <? (s2 + 1) * TICKS)) eqn:Eb;
        lia.
    + intros s. rewrite (Hin s w3 eq_refl).
      destruct ((s * TICKS <=? t2) && (t2 <? (s + 1) * TICKS)) eqn:Eb.
      * assert (s = s2) by (unfold TICKS in *; lia). subst s.
        rewrite <- (H5 s2 Hlater). lia.
      * specialize (H7 s). lia.
Qed.

(** Brings in that every clock advance in the goal is not negative. *)
Ltac ticks :=
  repeat match goal with
         | |- context [next_tick ?x] =>
             lazymatch goal with
             | H : 0 <= next_tick x |- _ => fail
             | _ => pose proof (next_tick_nonneg x)
             end
         end.

Lemma commit_limited cfg w0 u loc w :
  limited (MAX_UPDATES_PER_SECOND cfg) w0 loc w ->
  exists loc' w',
    commit cfg u loc w = Ok loc' w'
    /\ limited (MAX_UPDATES_PER_SECOND cfg) w0 loc' w'.
Proof.
  intros Hlim. unfold commit. cbv zeta.
  unfold bind at 1. cbn [time_time].
  unfold bind at 1. cbn [whisper_update_many].
  destruct (hd true (update_io (tick w))).
  - unfold bind at 1. cbn [time_time].
    unfold bind at 1. cbn [emit].
    unfold bind at 1. cbn [increment_committedPoints].
    unfold bind at 1. cbn [append_updateTimes].
    unfold bind at 1.
    match goal with |- context [when ?c ?m ?x] =>
      set (w2 := x); set (lg := when c m) end.
    assert (Hlog : exists w3, lg w2 = Ok tt w3
                     /\ now w3 = now w2 /\ history w3 = history w2).
    { unfold lg, when. destruct (LOG_UPDATES cfg); eexists;
        (split; [reflexivity|]); cbn; auto. }
    destruct Hlog as (w3 & -> & Hn3 & Hh3).
    apply (rate_limit_limited cfg w0 loc w _ w3 Hlim).
    + cbn [now tick set_clock set_now set_update_io]. ticks. lia.
    + rewrite Hn3. reflexivity.
    + rewrite Hh3. reflexivity.
  - unfold bind. cbn. eexists _, _. split; [reflexivity|].
    eapply limited_unhurried; [|exact Hlim].
    unfold unhurried. cbn. split; [reflexivity|]. ticks. lia.
Qed.

Ltac unhurried_prim :=
  intros ?w; unfold unhurried; cbn; split; [reflexivity|];
  try lia; try (unfold next_tick; lia).

Lemma ensure_file_unhurried u : steady unhurried (ensure_file u).
Proof.
  unfold ensure_file, create_file, createMetaFile.
  repeat steady_step; try unhurried_prim.
  intros w. unfold whisper_create. cbv zeta.
  change (create_io (tick w)) with (create_io w).
  destruct (hd true (create_io w)); unfold unhurried; cbn;
    (split; [reflexivity|unfold next_tick; lia]).
Qed.

Lemma snapshot_unhurried cfg : steady unhurried (snapshot cfg).
Proof.
  intros w. rewrite snapshot_eq. cbv zeta.
  destruct (bool_decide _); [destruct (cacheTooFull w && _)|];
    unfold unhurried; cbn; unfold next_tick; cbn;
    (split; [reflexivity|lia]).
Qed.

Lemma creation_throttle_unhurried cfg : steady unhurried (creation_throttle cfg).
Proof.
  intros w. rewrite creation_throttle_eq. cbv zeta.
  unfold unhurried. cbn. split; [reflexivity|]. unfold next_tick. lia.
Qed.

Lemma frozen_unhurried_at_yield metric dps path b w :
  unhurried w (at_yield metric dps path b w).
Proof. unfold unhurried. cbn. split; [reflexivity|lia]. Qed.

Lemma contention_unhurried metric w : unhurried w (contention metric w).
Proof. unfold unhurried. cbn. split; [reflexivity|lia]. Qed.

Lemma popped_unhurried metric w : unhurried w (popped metric w).
Proof.
  destruct (popped_rest metric w) as (Hh & _ & _ & _ & Hn & _).
  unfold unhurried. rewrite Hh, Hn. split; [reflexivity|lia].
Qed.

(** The body of the loop keeps the invariant of the limiter; when it
    raises, the budget still holds. *)
Lemma write_body_limited cfg w0 u loc w :
  let M := MAX_UPDATES_PER_SECOND cfg in
  limited M w0 loc w ->
  wp (write_body cfg u loc) (limited M w0) (within_budget M w0) w.
Proof.
  intros M Hlim. unfold write_body. cbv zeta. apply wp_bind.
  pose proof (ensure_file_unhurried u w) as Hu.
  unfold wp at 1.
  destruct (ensure_file u w) as [[] w1|e w1|w1]; cbn [final] in Hu.
  - destruct (commit_limited cfg w0 u
                {| updates := updates loc; lastSecond := lastSecond loc;
                   dataWritten := true |} w1) as (loc' & w' & Hc & Hl).
    { eapply limited_unhurried; [exact Hu|]. exact Hlim. }
    unfold wp. rewrite Hc. exact Hl.
  - eapply within_budget_unhurried; [exact Hu|].
    eapply limited_within, Hlim.
  - eapply within_budget_unhurried; [exact Hu|].
    eapply limited_within, Hlim.
Qed.

Lemma visit_limited cfg w0 metric n loc w :
  let M := MAX_UPDATES_PER_SECOND cfg in
  limited M w0 loc w ->
  wp (visit cfg (write_body cfg) (metric, n) loc)
     (limited M w0) (within_budget M w0) w.
Proof.
  intros M Hlim. unfold wp at 1.
  destruct (visit_cases cfg (write_body cfg) metric n loc w)
    as (allowed & wt & Hthr & ->).
  pose proof (creation_throttle_unhurried cfg w) as Ht.
  rewrite Hthr in Ht. cbn [final] in Ht.
  set (b := bool_decide _). clearbody b.
  set (w1 := if b then w else wt).
  assert (H1 : limited M w0 loc w1).
  { unfold w1. destruct b; [exact Hlim|].
    eapply limited_unhurried; [exact Ht|exact Hlim]. }
  destruct (b || allowed).
  - destruct (cache (interfere w1) !! metric) as [dps|].
    + apply write_body_limited.
      eapply limited_unhurried; [|exact H1].
      apply frozen_unhurried_at_yield.
    + eapply limited_unhurried; [|exact H1]. apply contention_unhurried.
  - eapply limited_unhurried; [|eapply limited_unhurried;
                                 [exact Ht|exact Hlim]].
    apply popped_unhurried.
Qed.

Lemma pass_limited cfg w0 loc w :
  let M := MAX_UPDATES_PER_SECOND cfg in
  limited M w0 loc w ->
  wp (optimalWriteOrder cfg (write_body cfg) loc)
     (limited M w0) (within_budget M w0) w.
Proof.
  intros M Hlim. unfold optimalWriteOrder. apply wp_bind.
  pose proof (snapshot_unhurried cfg w) as Hu. unfold wp at 1.
  destruct (snapshot cfg w) as [metrics w1| |]; cbn [final] in Hu;
    try (eapply within_budget_unhurried; [exact Hu|];
         eapply limited_within, Hlim).
  apply wp_for_each.
  - intros [metric n] s w2 _ H2. apply visit_limited, H2.
  - eapply limited_unhurried; [exact Hu|exact Hlim].
Qed.

Lemma time_sleep_unhurried d : 0 <= d -> steady unhurried (time_sleep d).
Proof. intros Hd w. unfold unhurried. cbn. split; [reflexivity|lia]. Qed.

Lemma MetricCache_bool_limited M w0 loc w :
  limited M w0 loc w ->
  wp MetricCache_bool (fun _ => limited M w0 loc) (within_budget M w0) w.
Proof.
  intros Hlim. unfold wp, MetricCache_bool. cbv zeta.
  eapply limited_unhurried; [|exact Hlim]. unfold unhurried. cbn.
  split; [reflexivity|lia].
Qed.

Lemma idle_sleep_limited M w0 loc1 w1 :
  limited M w0 loc1 w1 ->
  wp (when (negb (dataWritten loc1)) (time_sleep (TICKS / 10)))
     (fun _ => limited M w0 loc1) (within_budget M w0) w1.
Proof.
  intros H1.
  pose proof (steady_when unhurried (negb (dataWritten loc1))
                (time_sleep (TICKS / 10))
                (time_sleep_unhurried (TICKS / 10)
                   ltac:(vm_compute; discriminate)) w1) as Hu2.
  unfold wp.
  destruct (when (negb (dataWritten loc1)) (time_sleep (TICKS / 10)) w1)
    as [[] w2| |]; cbn [final] in Hu2 |- *.
  - eapply limited_unhurried; [exact Hu2|exact H1].
  - eapply within_budget_unhurried; [exact Hu2|].
    eapply limited_within, H1.
  - eapply within_budget_unhurried; [exact Hu2|].
    eapply limited_within, H1.
Qed.

Lemma drain_wp_limited cfg w0 fuel :
  forall loc w,
  limited (MAX_UPDATES_PER_SECOND cfg) w0 loc w ->
  wp (drain cfg fuel loc)
     (fun _ => within_budget (MAX_UPDATES_PER_SECOND cfg) w0)
     (within_budget (MAX_UPDATES_PER_SECOND cfg) w0) w.
Proof.
  induction fuel as [|fuel IH]; intros loc w Hlim.
  - exact (limited_within _ _ _ _ Hlim).
  - change (drain cfg (S fuel) loc)
      with (bind MetricCache_bool (fun nonempty : bool =>
              if nonempty then
                bind (optimalWriteOrder cfg (write_body cfg)
                        {| updates := updates loc;
                           lastSecond := lastSecond loc;
                           dataWritten := false |})
                  (fun loc' =>
                     bind (when (negb (dataWritten loc'))
                             (time_sleep (TICKS / 10)))
                       (fun _ => drain cfg fuel loc'))
              else ret tt)).
    apply wp_bind.
    eapply wp_mono; [apply MetricCache_bool_limited, Hlim| |auto].
    intros [|] w1 H1; [|exact (limited_within _ _ _ _ H1)].
    apply wp_bind.
    eapply wp_mono; [apply pass_limited, H1| |auto].
    intros loc2 w2 H2. apply wp_bind.
    eapply wp_mono; [apply idle_sleep_limited, H2| |auto].
    intros u3 w3 H3. apply IH, H3.
Qed.

Lemma drain_limited cfg w0 fuel loc w :
  let M := MAX_UPDATES_PER_SECOND cfg in
  limited M w0 loc w ->
  within_budget M w0 (final (drain cfg fuel loc w)).
Proof.
  intros M Hlim. apply wp_final. apply drain_wp_limited, Hlim.
Qed.
(** C2 (as the code has it).  The limiter acts after a commit has
    returned.  The first commit of a second resets the counter to 0;
    each further commit of that second increments it, and when it has
    reached [MAX_UPDATES_PER_SECOND] the writer sleeps until the next
    second begins.  So in a call of [writeCachedDataPoints], with limit
    M, no wall-clock second sees more than max(1, M) + 1 commits return:
    the commit that brings the count to M + 1 returns in that second,
    and the sleep follows it. *)
Theorem C2_commits_per_second cfg w :
  0 <= now w ->
  let M := MAX_UPDATES_PER_SECOND cfg in
  (forall fuel s,
     commits_in s (final (writeCachedDataPoints cfg fuel w)) - commits_in s w
     <= 1 + Z.max 1 M)
  /\ (forall t2 loc w3,
        0 <= t2 -> now w3 = t2 ->
        py_int t2 = lastSecond loc -> M <= updates loc + 1 ->
        exists w',
          rate_limit cfg t2 loc w3
          = Ok {| updates := updates loc + 1; lastSecond := lastSecond loc;
                  dataWritten := dataWritten loc |} w'
          /\ history w' = Slept ((py_int t2 + 1) * TICKS - t2) :: history w3
          /\ now w' = (py_int t2 + 1) * TICKS)
  /\ (forall t2 loc w3,
        py_int t2 <> lastSecond loc \/ updates loc + 1 < M ->
        exists loc', rate_limit cfg t2 loc w3 = Ok loc' w3).
Proof.
  intros Hn M. conjs.
  - intros fuel s. unfold writeCachedDataPoints.
    apply (drain_limited cfg w fuel _ w (limited_start M w Hn)).
  - intros t2 loc w3 Ht2 Hn3 Hsec HM.
    assert (Hs2' : py_int (t2 + TICKS) = py_int t2 + 1).
    { pose proof (proj1 (py_int_second t2 (py_int t2) Ht2) eq_refl).
      apply py_int_second; [pose proof TICKS_pos; lia|]. lia. }
    unfold rate_limit. cbv zeta. fold M.
    rewrite Hsec, Z.eqb_refl. cbn [negb].
    unfold bind, when.
    assert ((M <=? updates loc + 1) = true) as -> by lia.
    cbn [time_sleep]. rewrite Hs2', <- Hsec.
    eexists. split; [reflexivity|]. cbn. split; [reflexivity|]. lia.
  - intros t2 loc w3 Hcase. unfold rate_limit. cbv zeta. fold M.
    destruct (py_int t2 =? lastSecond loc) eqn:Esec; cbn [negb];
      [|eexists; reflexivity].
    apply Z.eqb_eq in Esec. destruct Hcase as [Hne|Hlt]; [done|].
    unfold bind, when.
    assert ((M <=? updates loc + 1) = false) as -> by lia.
    eexists; reflexivity.
Qed.

Lemma C2_witness :
  commits_in 1000 (final (writeCachedDataPoints (ex_cfg 3 1) 2 ex_quick))
  - commits_in 1000 ex_quick <= 1 + Z.max 1 1.
Proof.
  destruct (C2_commits_per_second (ex_cfg 3 1) ex_quick) as (H & _).
  - vm_compute. discriminate.
  - apply (H 2%nat 1000).
Defined.

(** C2, the claim as it is worded: the limit is 1 commit per second.
    The commits for [a] and [b] return two tenths and four tenths of a
    second into second 1000: two commits in one second.  The second one
    was not held back; the writer slept the remaining six tenths after
    it had returned. *)
Lemma C2_counterexample :
  let cfg := ex_cfg 3 1 in
  let loc := {| updates := 0; lastSecond := 0; dataWritten := false |} in
  MAX_UPDATES_PER_SECOND cfg = 1
  /\ (exists loc' w',
        for_each [("a", 5%nat); ("b", 1%nat)] (visit cfg (write_body cfg))
          loc ex_quick_loop = Ok loc' w'
        /\ commits (history w') = [1000400000; 1000200000]
        /\ commits_in 1000 w' = 2)
  /\ (exists w',
        writeCachedDataPoints cfg 2 ex_quick = Ok tt w'
        /\ history w'
           = [Slept 600000;
              Committed (ex_path "b") (points 1) 1000400000;
              Yielded "b" (points 1) (ex_path "b") true;
              Committed (ex_path "a") (points 5) 1000200000;
              Yielded "a" (points 5) (ex_path "a") true]
        /\ commits_in 1000 w' = 2).
Proof.
  cbv zeta. conjs.
  - reflexivity.
  - eexists _, _. split; [vm_compute; reflexivity|].
    split; vm_compute; reflexivity.
  - eexists. split; [vm_compute; reflexivity|].
    split; vm_compute; reflexivity.
Qed.

(** * Further properties of the writer *)

(** ** The cache is empty, or a metric is gone from it *)





(** ** Creating the file of a new metric *)






(** ** What a turn of the loop loses, and what it leaves alone *)





